(** * browser-tools-mcp: network record correlation, queries and session bring-up

    A shallow embedding of [src/index.ts].  The tool handlers of the MCP
    server are translated function by function:

    - the two CDP event handlers that feed [networkRequests]
      ([Network.requestWillBeSent], [Network.responseReceived]);
    - the filter / sort / slice pipeline of [query-network-traffic];
    - the connection bring-up of [query-network-traffic] and [open-url];
    - [start-chrome-debug] with [waitForChromeAccessible];
    - [get-network-details] with its two best-effort protocol calls;
    - the polling loop [waitForNetworkSettle] of [open-url];
    - [formatMarkdown], the listing by domain of [query-network-traffic];
    - the summary of API requests that [open-url] returns.

    JavaScript values are modelled as follows.  An object with a known set of
    properties is a record of [option]s ([None] reads as [undefined]); the
    [Map] [networkRequests] is an association list kept in insertion order,
    which is the order [Map.prototype.values] enumerates; numbers that carry
    protocol timestamps are rationals (every finite double is one, and the
    sign of a difference of two finite doubles is the sign of the exact
    difference), and so is the [limit] of a query, which [slice] truncates;
    counts, status codes and [Date.now()] readings are integers; strings are
    [string]s over ASCII. *)

From Stdlib Require Import String Ascii List Bool ZArith QArith Qabs Qround Lia Lqa.
From Stdlib Require Import DecimalString Sorted Permutation Btauto.
Import ListNotations.
Local Open Scope string_scope.
Local Open Scope Z_scope.

(** ** JavaScript primitives used by the handlers *)

Module Js.

(** [ToString] of a non-negative array length, as in a template literal. *)
Definition string_of_nat (n : nat) : string :=
  NilZero.string_of_uint (Nat.to_uint n).

(** [ToString] of an integral number. *)
Definition string_of_Z (z : Z) : string :=
  NilZero.string_of_int (Z.to_int z).

(** [`${v}`] for a string-valued property that may be [undefined]. *)
Definition template (v : option string) : string :=
  match v with
  | Some s => s
  | None => "undefined"
  end.

(** [s ? ... : ...] on an optional string: [undefined] and the empty string are falsy. *)
Definition truthy_string (v : option string) : bool :=
  match v with
  | Some EmptyString => false
  | Some _ => true
  | None => false
  end.

(** [n || 0] on an optional number. *)
Definition or_zero (v : option Q) : Q :=
  match v with
  | Some q => q
  | None => 0%Q
  end.

Definition is_upper (c : ascii) : bool :=
  let n := nat_of_ascii c in (65 <=? n)%nat && (n <=? 90)%nat.

Definition is_lower (c : ascii) : bool :=
  let n := nat_of_ascii c in (97 <=? n)%nat && (n <=? 122)%nat.

Definition lower_char (c : ascii) : ascii :=
  if is_upper c then ascii_of_nat (nat_of_ascii c + 32) else c.

Definition upper_char (c : ascii) : ascii :=
  if is_lower c then ascii_of_nat (nat_of_ascii c - 32) else c.

(** [String.prototype.toLowerCase]. *)
Fixpoint toLowerCase (s : string) : string :=
  match s with
  | EmptyString => EmptyString
  | String c s' => String (lower_char c) (toLowerCase s')
  end.

(** [String.prototype.startsWith]. *)
Fixpoint starts_with (p s : string) : bool :=
  match p, s with
  | EmptyString, _ => true
  | String a p', String b s' => Ascii.eqb a b && starts_with p' s'
  | String _ _, EmptyString => false
  end.

(** [String.prototype.includes]. *)
Fixpoint includes (s p : string) : bool :=
  starts_with p s ||
  match s with
  | EmptyString => false
  | String _ s' => includes s' p
  end.

(** [ToIntegerOrInfinity] of a finite number: truncation towards zero. *)
Definition ToIntegerOrInfinity (q : Q) : Z :=
  Z.quot (Qnum q) (Z.pos (Qden q)).

(** [Array.prototype.slice(0, end)] once [end] has gone through
    [ToIntegerOrInfinity]: a negative [end] counts from the back of the
    array. *)
Definition slice0 {A} (l : list A) (e : Z) : list A :=
  let len := Z.of_nat (length l) in
  let final := if e <? 0 then Z.max (len + e) 0 else Z.min e len in
  firstn (Z.to_nat final) l.

(** [Array.prototype.sort(cmp)]: the sort is stable, and for a consistent
    comparator the result is the one a stable insertion sort produces.  An
    element [x] goes before [y] when [cmp x y <= 0]. *)
Fixpoint sort_insert {A} (cmp : A -> A -> Q) (x : A) (l : list A) : list A :=
  match l with
  | [] => [x]
  | y :: l' =>
      if Qle_bool (cmp x y) 0 then x :: y :: l'
      else y :: sort_insert cmp x l'
  end.

Definition sort {A} (cmp : A -> A -> Q) (l : list A) : list A :=
  fold_right (sort_insert cmp) [] l.

End Js.

(** ** Data model: the records kept in [networkRequests] *)

(** A header object, in property order. *)
Definition Headers := list (string * string).

(** The [response] sub-object written by the [responseReceived] handlers. *)
Record Response := mkResponse {
  resp_url : option string;
  status : option Z;
  statusText : option string;
  resp_headers : option Headers;
  mimeType : option string
}.

(** A value of the map: every property is optional, since the objects are
    built by two different handlers and [{}] is a legal starting point. *)
Record NetworkRecord := mkRecord {
  requestId : option string;
  url : option string;
  method : option string;
  headers : option Headers;
  postData : option string;
  timestamp : option Q;
  type : option string;
  response : option Response;
  responseTimestamp : option Q
}.

(** The object literal [{}]. *)
Definition empty_object : NetworkRecord :=
  mkRecord None None None None None None None None None.

(** The [request] member of a [Network.requestWillBeSent] event. *)
Record RequestPayload := mkRequest {
  req_url : string;
  req_method : string;
  req_headers : Headers;
  req_postData : option string
}.

(** The [response] member of a [Network.responseReceived] event. *)
Record ResponsePayload := mkResponsePayload {
  rp_url : string;
  rp_status : Z;
  rp_statusText : string;
  rp_headers : Headers;
  rp_mimeType : string
}.

(** ** The [Map<string, any>] [networkRequests] *)

Module JsMap.

Definition t := list (string * NetworkRecord).

Definition empty : t := [].

Fixpoint get (k : string) (m : t) : option NetworkRecord :=
  match m with
  | [] => None
  | (k', v) :: m' => if String.eqb k k' then Some v else get k m'
  end.

(** [Map.prototype.set]: an existing key keeps its position. *)
Fixpoint set (k : string) (v : NetworkRecord) (m : t) : t :=
  match m with
  | [] => [(k, v)]
  | (k', v') :: m' =>
      if String.eqb k k' then (k, v) :: m' else (k', v') :: set k v m'
  end.

(** [Array.from(m.values())]. *)
Definition values (m : t) : list NetworkRecord := map snd m.

End JsMap.

(** ** The event handlers (index.ts 227-257, repeated at 568-600) *)

(** [({ requestId, request, timestamp }) => networkRequests.set(requestId,
    { requestId, url, method, headers, postData, timestamp, type: "request" })] *)
Definition requestWillBeSent (rid : string) (request : RequestPayload)
    (ts : Q) (networkRequests : JsMap.t) : JsMap.t :=
  JsMap.set rid
    {| requestId := Some rid;
       url := Some (req_url request);
       method := Some (req_method request);
       headers := Some (req_headers request);
       postData := req_postData request;
       timestamp := Some ts;
       type := Some "request";
       response := None;
       responseTimestamp := None |}
    networkRequests.

(** The [response] object literal of the [responseReceived] handlers. *)
Definition response_of (r : ResponsePayload) : Response :=
  {| resp_url := Some (rp_url r);
     status := Some (rp_status r);
     statusText := Some (rp_statusText r);
     resp_headers := Some (rp_headers r);
     mimeType := Some (rp_mimeType r) |}.

(** [{ ...existing, requestId, response: {...}, responseTimestamp: timestamp }] *)
Definition spread_response (existing : NetworkRecord) (rid : string)
    (r : ResponsePayload) (ts : Q) : NetworkRecord :=
  {| requestId := Some rid;
     url := url existing;
     method := method existing;
     headers := headers existing;
     postData := postData existing;
     timestamp := timestamp existing;
     type := type existing;
     response := Some (response_of r);
     responseTimestamp := Some ts |}.

(** [const existing = networkRequests.get(requestId) || {}; networkRequests.set(...)] *)
Definition responseReceived (rid : string) (r : ResponsePayload)
    (ts : Q) (networkRequests : JsMap.t) : JsMap.t :=
  let existing :=
    match JsMap.get rid networkRequests with
    | Some e => e
    | None => empty_object
    end in
  JsMap.set rid (spread_response existing rid r ts) networkRequests.

(** A protocol event as the transport delivers it. *)
Inductive NetworkEvent :=
| RequestWillBeSent (rid : string) (request : RequestPayload) (ts : Q)
| ResponseReceived (rid : string) (r : ResponsePayload) (ts : Q).

Definition dispatch (e : NetworkEvent) (m : JsMap.t) : JsMap.t :=
  match e with
  | RequestWillBeSent rid rq ts => requestWillBeSent rid rq ts m
  | ResponseReceived rid rp ts => responseReceived rid rp ts m
  end.

(** Events are handled in delivery order. *)
Definition ingest (es : list NetworkEvent) (m : JsMap.t) : JsMap.t :=
  fold_left (fun acc e => dispatch e acc) es m.

(** ** The regular expressions built from [urlFilter] (index.ts 264-269)

    [new RegExp(src, "i")] is a built-in of the host.  It is modelled on the
    fragment of pattern syntax that [urlFilter.replace(/\*/g, ".*")] produces
    from filters made of ordinary characters, [.] and [*]: a sequence of
    atoms, each optionally followed by the greedy quantifier [*].  Matching
    follows the backtracking semantics of the language definition: an atom
    followed by [*] consumes as many characters as it can and gives them back
    one by one.  A source with any other syntax character is outside the
    fragment. *)

Module RegExp.

Inductive atom :=
| Chr (c : ascii)      (* an ordinary pattern character *)
| Dot.                 (* [.], any character but a line terminator *)

Inductive term :=
| One (a : atom)
| Many (a : atom).     (* a* *)

Definition pattern := list term.

(** The syntax characters of the pattern grammar: [^ $ \ . * + ? ( ) [ ] { } |]. *)
Definition is_syntax_character (c : ascii) : bool :=
  existsb (Ascii.eqb c)
    ["^"; "$"; "\"; "."; "*"; "+"; "?"; "("; ")"; "["; "]"; "{"; "}"; "|"]%char.

Definition parse_atom (c : ascii) : option atom :=
  if Ascii.eqb c "."%char then Some Dot
  else if is_syntax_character c then None
  else Some (Chr c).

(** [None]: the source is not in the fragment (the constructor may throw
    [SyntaxError], as for a leading quantifier, or build an expression the
    fragment does not describe). *)
Fixpoint parse (src : string) : option pattern :=
  match src with
  | EmptyString => Some []
  | String c rest =>
      match parse_atom c with
      | None => None
      | Some a =>
          match rest with
          | String "*"%char rest' =>
              match parse rest' with
              | Some p => Some (Many a :: p)
              | None => None
              end
          | _ =>
              match parse rest with
              | Some p => Some (One a :: p)
              | None => None
              end
          end
      end
  end.

Definition is_line_terminator (c : ascii) : bool :=
  Ascii.eqb c (ascii_of_nat 10) || Ascii.eqb c (ascii_of_nat 13).

(** Character comparison under the [i] flag: both sides are canonicalized
    by upper-casing. *)
Definition atom_matches (a : atom) (d : ascii) : bool :=
  match a with
  | Chr c => Ascii.eqb (Js.upper_char c) (Js.upper_char d)
  | Dot => negb (is_line_terminator d)
  end.

(** Does the pattern match at the start of [s]? *)
Fixpoint match_here (p : pattern) : string -> bool :=
  match p with
  | [] => fun _ => true
  | One a :: p' =>
      fun s =>
        match s with
        | String d s' => atom_matches a d && match_here p' s'
        | EmptyString => false
        end
  | Many a :: p' =>
      fix star (s : string) : bool :=
        match s with
        | String d s' => (atom_matches a d && star s') || match_here p' s
        | EmptyString => match_here p' s
        end
  end.

(** [RegExp.prototype.test] without the [g] or [y] flag: the match is tried
    at every start index, first to last. *)
Fixpoint test (p : pattern) (s : string) : bool :=
  match_here p s ||
  match s with
  | String _ s' => test p s'
  | EmptyString => false
  end.

(** [new RegExp(src, "i")], as the function [s => pattern.test(s)], for the
    sources of the fragment.  The handlers take the constructor as a
    parameter; [make_i] is put in its place only with filters whose source
    is in the fragment. *)
Definition make_i (src : string) : option (string -> bool) :=
  match parse src with
  | Some p => Some (test p)
  | None => None
  end.

End RegExp.

(** ** The query pipeline of [query-network-traffic] (index.ts 260-286) *)

(** [urlFilter.replace(/\*/g, ".*")] *)
Fixpoint replace_star (urlFilter : string) : string :=
  match urlFilter with
  | EmptyString => EmptyString
  | String c rest =>
      if Ascii.eqb c "*"%char then String "."%char (String "*"%char (replace_star rest))
      else String c (replace_star rest)
  end.

(** [(a, b) => (b.timestamp || 0) - (a.timestamp || 0)] *)
Definition by_timestamp_desc (a b : NetworkRecord) : Q :=
  (Js.or_zero (timestamp b) - Js.or_zero (timestamp a))%Q.

Section Query.

(** The host's [new RegExp(src, "i")]: [None] when the constructor throws. *)
Variable RegExp_i : string -> option (string -> bool).

(** [if (urlFilter) { pattern = new RegExp(...); filter(req => pattern.test(req.url)) }];
    [test] applies [ToString] to its argument. *)
Definition filter_url (urlFilter : option string)
    (requests : list NetworkRecord) : option (list NetworkRecord) :=
  if Js.truthy_string urlFilter then
    match RegExp_i (replace_star (Js.template urlFilter)) with
    | Some pattern_test =>
        Some (filter (fun req => pattern_test (Js.template (url req))) requests)
    | None => None
    end
  else Some requests.

(** [req.method?.toLowerCase() === method.toLowerCase()] *)
Definition method_equals (m : string) (req : NetworkRecord) : bool :=
  match method req with
  | Some rm => String.eqb (Js.toLowerCase rm) (Js.toLowerCase m)
  | None => false
  end.

Definition filter_method (m : option string)
    (requests : list NetworkRecord) : list NetworkRecord :=
  if Js.truthy_string m then filter (method_equals (Js.template m)) requests
  else requests.

(** [req.response?.status === statusCode] *)
Definition status_equals (code : Z) (req : NetworkRecord) : bool :=
  match response req with
  | Some r =>
      match status r with
      | Some st => st =? code
      | None => false
      end
  | None => false
  end.

(** [if (statusCode)]: an absent code and [0] are both falsy. *)
Definition filter_status (statusCode : option Z)
    (requests : list NetworkRecord) : list NetworkRecord :=
  match statusCode with
  | Some code =>
      if code =? 0 then requests else filter (status_equals code) requests
  | None => requests
  end.

(** [.sort((a, b) => ...).slice(0, limit)] *)
Definition sort_and_limit (limit : Q)
    (requests : list NetworkRecord) : list NetworkRecord :=
  Js.slice0 (Js.sort by_timestamp_desc requests) (Js.ToIntegerOrInfinity limit).

(** Lines 261-286: the records handed to [formatMarkdown]; [None] when
    building the pattern throws. *)
Definition query (networkRequests : JsMap.t) (urlFilter m : option string)
    (statusCode : option Z) (limit : Q) : option (list NetworkRecord) :=
  match filter_url urlFilter (JsMap.values networkRequests) with
  | Some l => Some (sort_and_limit limit (filter_status statusCode (filter_method m l)))
  | None => None
  end.

End Query.

(** ** Process-wide state and the outside world *)

(** An entry of [CDP.List({ port: 9222 })]. *)
Record Target := mkTarget {
  target_type : string;
  webSocketDebuggerUrl : string
}.

(** A client returned by [CDP({ target })].  [readyState] is what
    [cdpClient._ws?.readyState] reads ([1] is OPEN, [3] is CLOSED). *)
Record CdpClient := mkClient {
  client_id : nat;
  client_target : string;
  readyState : option Z
}.

Record ChildProcess := mkChild {
  pid : Z
}.

(** Calls that leave the process, in the order they are made. *)
Inductive Effect :=
| CdpList
| Pkill                                   (* spawn("pkill", ["-f", "remote-debugging-port=9222"]) *)
| Sleep (ms : Z)                          (* setTimeout(resolve, ms) *)
| Spawn (path : string) (args : list string)
| ChildKill (child : Z)                   (* chromeProcess.kill() *)
| CdpConnect (target : string)
| CdpClose (client : nat)
| PageEnable (client : nat)
| NetworkEnable (client : nat)
| Subscribe (client : nat) (event : string)
| PageNavigate (client : nat) (to : string)
| GetResponseBody (client : nat) (rid : string)
| GetRequestPostData (client : nat) (rid : string).

(** What [spawn(chromePath, chromeArgs, ...)] leads to. *)
Inductive SpawnOutcome :=
| Spawned (child : Z)          (* a running child with this pid *)
| SpawnThrows (msg : string)   (* [spawn] itself throws, inside the handler's [try] *)
| SpawnErrorEvent (msg : string).
                               (* the child emits ["error"] on a later tick *)

(** The part of the world a handler cannot change. *)
Record Env := mkEnv {
  platform : string;                              (* process.platform *)
  tmp_profile_dir : string;                       (* join(tmpdir(), `chrome-debug-${Date.now()}`) *)
  pkill_spawns : bool;                            (* is there a [pkill] to spawn? *)
  spawn_chrome : SpawnOutcome;
  rejects : Effect -> option string;              (* calls that fail, with the message *)
  response_body : string -> option (string * bool);
                                                  (* Network.getResponseBody: body, base64Encoded *)
  request_post_data : string -> option (option string)
                                                  (* Network.getRequestPostData: postData *)
}.

(** The three module-level variables, the answers the debug endpoint will
    give to the coming [CDP.List] calls ([None]: the call rejects), and the
    calls made so far. *)
Record State := mkState {
  chromeProcess : option ChildProcess;
  networkRequests : JsMap.t;
  cdpClient : option CdpClient;
  endpoint : list (option (list Target));
  next_client : nat;
  trace : list Effect
}.

(** How an [async] body ends: with a value, with an exception a [catch] can
    see, or with an exception thrown from an event listener, which no [try]
    of the handler encloses and which ends the host process. *)
Inductive Outcome (A : Type) :=
| Return (a : A)
| Throw (msg : string)
| Crash (msg : string).

Arguments Return {A} a.
Arguments Throw {A} msg.
Arguments Crash {A} msg.

Definition M (A : Type) : Type := State -> Outcome A * State.

Definition ret {A} (a : A) : M A := fun s => (Return a, s).

Definition bind {A B} (m : M A) (k : A -> M B) : M B :=
  fun s =>
    match m s with
    | (Return a, s') => k a s'
    | (Throw msg, s') => (Throw msg, s')
    | (Crash msg, s') => (Crash msg, s')
    end.

Definition throw {A} (msg : string) : M A := fun s => (Throw msg, s).

Definition crash {A} (msg : string) : M A := fun s => (Crash msg, s).

(** [try { body } catch (error) { handler(error.message) }] *)
Definition try_catch {A} (body : M A) (handler : string -> M A) : M A :=
  fun s =>
    match body s with
    | (Throw msg, s') => handler msg s'
    | r => r
    end.

Notation "x <- m ;; k" := (bind m (fun x => k))
  (at level 61, m at next level, right associativity).
Notation "m ;;; k" := (bind m (fun _ => k))
  (at level 61, right associativity).

Definition get_state : M State := fun s => (Return s, s).

Definition log (e : Effect) : M unit :=
  fun s =>
    (Return tt,
     mkState (chromeProcess s) (networkRequests s) (cdpClient s)
             (endpoint s) (next_client s) (trace s ++ [e])).

Definition set_chromeProcess (p : option ChildProcess) : M unit :=
  fun s =>
    (Return tt,
     mkState p (networkRequests s) (cdpClient s)
             (endpoint s) (next_client s) (trace s)).

Definition set_cdpClient (c : option CdpClient) : M unit :=
  fun s =>
    (Return tt,
     mkState (chromeProcess s) (networkRequests s) c
             (endpoint s) (next_client s) (trace s)).

(** The text a tool hands back: [{ content: [{ type: "text", text }] }].
    [Markdown rs] stands for [formatMarkdown(rs)], whose rendering is not
    modelled. *)
Inductive ToolResult :=
| Text (text : string)
| Markdown (requests : list NetworkRecord).

Definition nl : string := String (ascii_of_nat 10) EmptyString.

(** [formatMarkdown] (index.ts 289-334) puts a record whose [url] does not
    parse into the [invalid-url] bucket, but then evaluates
    [req.url.replace(...)] for every record it lists: a record without [url]
    makes it throw [TypeError]. *)
Definition formatMarkdown_throws (requests : list NetworkRecord) : bool :=
  existsb (fun req => match url req with Some _ => false | None => true end) requests.

Section Host.

Variable env : Env.

(** A call made for its effect only (a protocol call that is awaited, or
    [kill()]): logged, then it succeeds or throws. *)
Definition perform (e : Effect) : M unit :=
  log e ;;;
  match rejects env e with
  | Some msg => throw msg
  | None => ret tt
  end.

(** [await CDP.List({ port: 9222 })] *)
Definition CDP_List : M (list Target) :=
  fun s =>
    let s' := mkState (chromeProcess s) (networkRequests s) (cdpClient s)
                      (tl (endpoint s)) (next_client s) (trace s ++ [CdpList]) in
    match endpoint s with
    | Some targets :: _ => (Return targets, s')
    | _ => (Throw "connect ECONNREFUSED 127.0.0.1:9222", s')
    end.

(** [await CDP({ target })]: a fresh client with an open socket. *)
Definition CDP_connect (target : string) : M CdpClient :=
  perform (CdpConnect target) ;;;
  fun s =>
    (Return (mkClient (next_client s) target (Some 1)),
     mkState (chromeProcess s) (networkRequests s) (cdpClient s)
             (endpoint s) (S (next_client s)) (trace s)).

(** index.ts 23-33 *)
Definition getChromeExecutablePath : string :=
  if String.eqb (platform env) "darwin" then
    "/Applications/Google Chrome.app/Contents/MacOS/Google Chrome"
  else if String.eqb (platform env) "win32" then
    "C:\Program Files\Google\Chrome\Application\chrome.exe"
  else "google-chrome".

(** index.ts 36-43: [{ accessible: targets.length > 0, targets }], or
    [{ accessible: false }] when the listing rejects. *)
Definition isChromeAccessible : M (bool * option (list Target)) :=
  try_catch
    (targets <- CDP_List ;;
     ret (negb (Nat.eqb (length targets) 0), Some targets))
    (fun _ => ret (false, None)).

(** index.ts 46-58.  [pkill] is spawned without an ["error"] listener:
    when it cannot be spawned the unhandled ["error"] event ends the
    process; otherwise its ["close"] starts the one-second timer. *)
Definition killChromeDebugProcesses : M unit :=
  try_catch
    (log Pkill ;;;
     if pkill_spawns env then log (Sleep 1000)
     else crash "spawn pkill ENOENT")
    (fun _ => ret tt).

(** index.ts 61-68 *)
Fixpoint waitForChromeAccessible (maxRetries : nat) (delayMs : Z) : M bool :=
  match maxRetries with
  | O => ret false
  | S n =>
      st <- isChromeAccessible ;;
      if fst st then ret true
      else log (Sleep delayMs) ;;; waitForChromeAccessible n delayMs
  end.

(** [targets?.length || 0] *)
Definition target_count (targets : option (list Target)) : nat :=
  match targets with
  | Some ts => length ts
  | None => 0
  end.

Definition chromeArgs (tempUserDataDir : string) (headless : bool) : list string :=
  [ "--remote-debugging-port=9222";
    "--user-data-dir=" ++ tempUserDataDir;
    "--disable-background-timer-throttling";
    "--disable-backgrounding-occluded-windows";
    "--disable-renderer-backgrounding";
    "--disable-features=TranslateUI";
    "--disable-ipc-flooding-protection";
    "--no-first-run";
    "--no-default-browser-check" ]
  ++ (if headless then ["--headless=new"; "--disable-gpu"] else []).

(** [chromeProcess = spawn(...); chromeProcess.on("error", e => { throw ... })]
    (index.ts 123-131).  The listener runs outside the handler's [try], so
    what it throws is not caught. *)
Definition spawn_chromeProcess (path : string) (args : list string) : M unit :=
  log (Spawn path args) ;;;
  match spawn_chrome env with
  | Spawned child => set_chromeProcess (Some (mkChild child))
  | SpawnThrows msg => throw msg
  | SpawnErrorEvent msg => crash ("Failed to start Chrome: " ++ msg)
  end.

(** The [start-chrome-debug] handler (index.ts 85-168). *)
Definition start_chrome_debug (userDataDir : option string) (headless : bool)
    : M ToolResult :=
  try_catch
    (chromeStatus <- isChromeAccessible ;;
     if fst chromeStatus then
       ret (Text ("Chrome debug instance is already running on port 9222" ++ nl
                  ++ "Active targets: "
                  ++ Js.string_of_nat (target_count (snd chromeStatus))))
     else
       killChromeDebugProcesses ;;;
       let chromePath := getChromeExecutablePath in
       let tempUserDataDir :=
         if Js.truthy_string userDataDir then Js.template userDataDir
         else tmp_profile_dir env in
       spawn_chromeProcess chromePath (chromeArgs tempUserDataDir headless) ;;;
       isAccessible <- waitForChromeAccessible 15 500 ;;
       if isAccessible then
         st <- isChromeAccessible ;;
         s <- get_state ;;
         ret (Text ("Chrome debug instance started successfully!" ++ nl
                    ++ "PID: "
                    ++ match chromeProcess s with
                       | Some p => Js.string_of_Z (pid p)
                       | None => "undefined"
                       end ++ nl
                    ++ "Debugging port: 9222" ++ nl
                    ++ "User data directory: " ++ tempUserDataDir ++ nl
                    ++ "Active targets: "
                    ++ Js.string_of_nat (target_count (snd st))))
       else
         s <- get_state ;;
         match chromeProcess s with
         | Some p => perform (ChildKill (pid p)) ;;; set_chromeProcess None
         | None => ret tt
         end ;;;
         throw "Failed to start Chrome: Chrome started but debugging interface is not accessible after 7.5 seconds")
    (fun msg => ret (Text ("Failed to start Chrome: " ++ msg))).


(** [targets.find(target => target.type === "page") || targets[0]] *)
Definition pageTarget (targets : list Target) : option Target :=
  match find (fun t => String.eqb (target_type t) "page") targets with
  | Some t => Some t
  | None => hd_error targets
  end.

(** Registration of the persistent pair of listeners on a new client
    (index.ts 227-257 and 568-600); the listeners themselves are
    [requestWillBeSent] and [responseReceived] above. *)
Definition subscribe_persistent (c : CdpClient) : M unit :=
  log (Subscribe (client_id c) "Network.requestWillBeSent") ;;;
  log (Subscribe (client_id c) "Network.responseReceived").

Definition not_running : ToolResult :=
  Text "Error: Chrome debug instance is not running. Please start Chrome with the 'start-chrome-debug' tool first.".

Definition no_page_targets : ToolResult :=
  Text "Error: No page targets available in Chrome debug session.".

Variable RegExp_i : string -> option (string -> bool).

(** index.ts 205-258: [if (!cdpClient) { ... }].  [Some r] is an early
    [return r]. *)
Definition query_connect : M (option ToolResult) :=
  s <- get_state ;;
  match cdpClient s with
  | Some _ => ret None
  | None =>
      targets <- CDP_List ;;
      match pageTarget targets with
      | None => ret (Some no_page_targets)
      | Some t =>
          c <- CDP_connect (webSocketDebuggerUrl t) ;;
          set_cdpClient (Some c) ;;;
          perform (NetworkEnable (client_id c)) ;;;
          subscribe_persistent c ;;;
          ret None
      end
  end.

(** The [query-network-traffic] handler (index.ts 191-356).  The message of
    the [SyntaxError] that [new RegExp] throws names the source and the
    fault; it is the engine's, and is cut here to its first words. *)
Definition query_network_traffic (urlFilter m : option string)
    (statusCode : option Z) (limit : Q) : M ToolResult :=
  try_catch
    (chromeStatus <- isChromeAccessible ;;
     if negb (fst chromeStatus) then ret not_running
     else
       early <- query_connect ;;
       match early with
       | Some r => ret r
       | None =>
           s <- get_state ;;
           match query RegExp_i (networkRequests s) urlFilter m statusCode limit with
           | Some filteredRequests =>
               if formatMarkdown_throws filteredRequests then
                 throw "Cannot read properties of undefined (reading 'replace')"
               else ret (Markdown filteredRequests)
           | None => throw "Invalid regular expression"
           end
       end)
    (fun msg => ret (Text ("Error querying network traffic: " ++ msg))).

(** [cdpClient._ws?.readyState !== 1] *)
Definition socket_not_open (c : CdpClient) : bool :=
  match readyState c with
  | Some st => negb (st =? 1)
  | None => true
  end.

(** index.ts 552-601: [if (!cdpClient || cdpClient._ws?.readyState !== 1) { ... }] *)
Definition open_url_connect (target : Target) : M unit :=
  s <- get_state ;;
  let stale :=
    match cdpClient s with
    | None => true
    | Some c => socket_not_open c
    end in
  if stale then
    match cdpClient s with
    | Some c =>
        try_catch (perform (CdpClose (client_id c))) (fun _ => ret tt) ;;;
        set_cdpClient None
    | None => ret tt
    end ;;;
    c <- CDP_connect (webSocketDebuggerUrl target) ;;
    set_cdpClient (Some c) ;;;
    perform (PageEnable (client_id c)) ;;;
    perform (NetworkEnable (client_id c)) ;;;
    subscribe_persistent c
  else ret tt.

(** The [open-url] handler up to the navigation (index.ts 523-645).  The
    wait that follows is [waitForNetworkSettle] below; [None] means the
    handler goes on to it, [Some r] that it has returned [r]. *)
Definition open_url_navigate (to : string) : M (option ToolResult) :=
  try_catch
    (chromeStatus <- isChromeAccessible ;;
     if negb (fst chromeStatus) then ret (Some not_running)
     else
       targets <- CDP_List ;;
       match pageTarget targets with
       | None => ret (Some no_page_targets)
       | Some t =>
           open_url_connect t ;;;
           s <- get_state ;;
           match cdpClient s with
           | Some c =>
               log (Subscribe (client_id c) "Network.requestWillBeSent") ;;;
               log (Subscribe (client_id c) "Network.responseReceived") ;;;
               perform (PageNavigate (client_id c) to) ;;;
               ret None
           | None => throw "Cannot read properties of null (reading 'Network')"
           end
       end)
    (fun msg => ret (Some (Text ("Error opening URL: " ++ msg)))).

(** *** [get-network-details] (index.ts 371-513) *)

(** The value of the local [responseBody]. *)
Inductive ResponseBody :=
| Body (body : string) (base64Encoded : bool)
| BodyError (error : string).

(** The [details] object; its [timestamp] string is built but never read
    by [formatDetails] and is left out. *)
Record Details := mkDetails {
  d_requestId : string;
  d_url : option string;
  d_method : option string;
  d_requestHeaders : option Headers;
  d_postData : option string;
  d_response : option Response;
  d_responseBody : ResponseBody
}.

(** [Object.entries(h).forEach(([key, value]) => { md += `${key}: ${value}\n` })] *)
Definition header_lines (h : Headers) : string :=
  fold_left (fun md kv => md ++ fst kv ++ ": " ++ snd kv ++ nl) h EmptyString.

(** [includeHeaders && h && Object.keys(h).length > 0] *)
Definition shows_headers (includeHeaders : bool) (h : option Headers) : bool :=
  includeHeaders &&
  match h with
  | Some (_ :: _) => true
  | _ => false
  end.

(** [details.response?.status || "pending"] *)
Definition status_or_pending (r : option Response) : string :=
  match r with
  | Some r' =>
      match status r' with
      | Some st => if st =? 0 then "pending" else Js.string_of_Z st
      | None => "pending"
      end
  | None => "pending"
  end.

(** [details.responseBody?.body] *)
Definition body_of (b : ResponseBody) : option string :=
  match b with
  | Body body _ => Some body
  | BodyError _ => None
  end.

Definition fence : string := "```".

(** index.ts 454-491 *)
Definition formatDetails (includeHeaders : bool) (details : Details) : string :=
  let md := "## " ++ Js.template (d_method details) ++ " "
            ++ Js.template (d_url details) ++ nl ++ nl in
  let md := md ++ "Status: " ++ status_or_pending (d_response details) ++ nl ++ nl in
  let md :=
    if shows_headers includeHeaders (d_requestHeaders details) then
      md ++ "### Request Headers:" ++ nl
         ++ header_lines (match d_requestHeaders details with Some h => h | None => [] end)
         ++ nl
    else md in
  let md :=
    if Js.truthy_string (d_postData details) then
      md ++ "### Request Body:" ++ nl ++ fence ++ nl
         ++ Js.template (d_postData details) ++ nl ++ fence ++ nl ++ nl
    else md in
  let response_headers :=
    match d_response details with
    | Some r => resp_headers r
    | None => None
    end in
  let md :=
    if shows_headers includeHeaders response_headers then
      md ++ "### Response Headers:" ++ nl
         ++ header_lines (match response_headers with Some h => h | None => [] end)
         ++ nl
    else md in
  if Js.truthy_string (body_of (d_responseBody details)) then
    md ++ "### Response Body:" ++ nl ++ fence ++ nl
       ++ Js.template (body_of (d_responseBody details)) ++ nl ++ fence ++ nl
  else md.

(** index.ts 411-422 *)
Definition fetch_responseBody (c : CdpClient) (rid : string) : M ResponseBody :=
  try_catch
    (log (GetResponseBody (client_id c) rid) ;;;
     match response_body env rid with
     | Some (body, base64Encoded) => ret (Body body base64Encoded)
     | None => throw "No resource with given identifier found"
     end)
    (fun _ => ret (BodyError "Could not retrieve response body")).

Definition is_state_changing (m : option string) : bool :=
  match m with
  | Some s => String.eqb s "POST" || String.eqb s "PUT" || String.eqb s "PATCH"
  | None => false
  end.

(** index.ts 424-440; [None] is [null] (or an [undefined] result). *)
Definition fetch_postData (c : CdpClient) (rid : string)
    (request : NetworkRecord) : M (option string) :=
  try_catch
    (if Js.truthy_string (postData request) then ret (postData request)
     else if is_state_changing (method request) then
       log (GetRequestPostData (client_id c) rid) ;;;
       match request_post_data env rid with
       | Some pd => ret pd
       | None => throw "No post data available for the request"
       end
     else ret None)
    (fun _ => ret None).

(** [new Date(request.timestamp || 0).toISOString()] throws [RangeError]
    when the time value is out of the range of [Date]. *)
Definition toISOString_throws (t : option Q) : bool :=
  negb (Qle_bool (Qabs (Js.or_zero t)) 8640000000000000).

(** The [get-network-details] handler. *)
Definition get_network_details (rid : string) (includeHeaders : bool)
    : M ToolResult :=
  try_catch
    (chromeStatus <- isChromeAccessible ;;
     if negb (fst chromeStatus) then ret not_running
     else
       s <- get_state ;;
       match cdpClient s with
       | None =>
           ret (Text "Error: No active CDP connection. Please run 'query-network-traffic' first to establish connection.")
       | Some c =>
           match JsMap.get rid (networkRequests s) with
           | None => ret (Text ("Error: No request found with ID: " ++ rid))
           | Some request =>
               responseBody <- fetch_responseBody c rid ;;
               pd <- fetch_postData c rid request ;;
               if toISOString_throws (timestamp request) then
                 throw "Invalid time value"
               else
                 ret (Text (formatDetails includeHeaders
                              {| d_requestId := rid;
                                 d_url := url request;
                                 d_method := method request;
                                 d_requestHeaders := headers request;
                                 d_postData := pd;
                                 d_response := response request;
                                 d_responseBody := responseBody |}))
           end
       end)
    (fun msg => ret (Text ("Error getting network details: " ++ msg))).

End Host.

(** ** [waitForNetworkSettle] and the temporary listeners (index.ts 604-660)

    After [Page.navigate] the event loop runs two kinds of callbacks that
    touch [lastNetworkActivity]: the temporary listeners, once per network
    event, and the [setInterval] callback.  Each is given with the value
    [Date.now()] returns while it runs. *)

Inductive Callback :=
| NetworkActivity (now : Z) (e : NetworkEvent)
| IntervalTick (now : Z).

(** The locals of the handler that the callbacks share; [settled] is the
    reading of the clock at which [resolve()] was called. *)
Record PageLoad := mkPageLoad {
  lastNetworkActivity : Z;
  pageLoadRequests : JsMap.t;
  settled : option Z
}.

(** [const pageLoadRequests = new Map(); let lastNetworkActivity = Date.now();] *)
Definition page_load_start (now : Z) : PageLoad :=
  {| lastNetworkActivity := now; pageLoadRequests := JsMap.empty; settled := None |}.

(** [tempRequestHandler] / [tempResponseHandler], and the interval callback:
    [if (Date.now() - lastNetworkActivity >= 1000) { clearInterval(...); resolve(); }].
    A cleared interval does not run again. *)
Definition run_callback (st : PageLoad) (cb : Callback) : PageLoad :=
  match cb with
  | NetworkActivity now e =>
      {| lastNetworkActivity := now;
         pageLoadRequests := dispatch e (pageLoadRequests st);
         settled := settled st |}
  | IntervalTick now =>
      match settled st with
      | Some _ => st
      | None =>
          if now - lastNetworkActivity st >=? 1000 then
            {| lastNetworkActivity := lastNetworkActivity st;
               pageLoadRequests := pageLoadRequests st;
               settled := Some now |}
          else st
      end
  end.

Definition run_callbacks (cbs : list Callback) (st : PageLoad) : PageLoad :=
  fold_left run_callback cbs st.

(** The first [n] callbacks of an unending run of the event loop. *)
Definition first_callbacks (loop : nat -> Callback) (n : nat) : list Callback :=
  map loop (seq 0 n).

(** The clock reading of the most recent network event among [cbs], or
    [start] when there is none: what the settle wait is specified against. *)
Fixpoint most_recent_activity (start : Z) (cbs : list Callback) : Z :=
  match cbs with
  | [] => start
  | NetworkActivity now _ :: rest => most_recent_activity now rest
  | IntervalTick _ :: rest => most_recent_activity start rest
  end.

Definition is_tick (cb : Callback) : bool :=
  match cb with
  | IntervalTick _ => true
  | NetworkActivity _ _ => false
  end.

(** An ideal timer with nothing else going on: [Page.navigate] takes [delay]
    ms, then the interval is set, and the [k]-th callback is its firing
    [100 * (k + 1)] ms later. *)
Definition idle_page (start delay : Z) (k : nat) : Callback :=
  IntervalTick (start + delay + 100 * (Z.of_nat k + 1)).

Definition sample_request : RequestPayload :=
  {| req_url := "http://a/poll"; req_method := "GET"; req_headers := [];
     req_postData := None |}.

(** A page that polls its server: a request every 100 ms, the interval firing
    50 ms after each of them. *)
Definition polling_page (k : nat) : Callback :=
  if Nat.even k then
    NetworkActivity (50 * Z.of_nat k)
      (RequestWillBeSent "poll" sample_request (inject_Z (Z.of_nat k)))
  else IntervalTick (50 * Z.of_nat k).

(** ** Vocabulary of the statements *)

(** A [Network.responseReceived] event for [rid], from its payload and
    protocol timestamp. *)
Definition response_event (rid : string) (r : ResponsePayload * Q) : NetworkEvent :=
  ResponseReceived rid (fst r) (snd r).

(** The last element of a list of responses, if any. *)
Fixpoint final_response (rs : list (ResponsePayload * Q)) : option (ResponsePayload * Q) :=
  match rs with
  | [] => None
  | r :: rest =>
      match final_response rest with
      | Some r' => Some r'
      | None => Some r
      end
  end.

(** The record the request handler stores. *)
Definition request_record (rid : string) (rq : RequestPayload) (ts : Q) : NetworkRecord :=
  {| requestId := Some rid;
     url := Some (req_url rq);
     method := Some (req_method rq);
     headers := Some (req_headers rq);
     postData := req_postData rq;
     timestamp := Some ts;
     type := Some "request";
     response := None;
     responseTimestamp := None |}.

(** The timestamp a record is ordered by: its own, or zero. *)
Definition effective_timestamp (r : NetworkRecord) : Q := Js.or_zero (timestamp r).

(** [a] may precede [b] in a most-recent-first listing. *)
Definition not_older (a b : NetworkRecord) : Prop :=
  (effective_timestamp b <= effective_timestamp a)%Q.

(** The strings a pattern of the fragment denotes: an atom takes one
    character, a starred atom any number of them. *)
Inductive matches : RegExp.pattern -> string -> Prop :=
| matches_nil : matches [] EmptyString
| matches_one a c p s :
    RegExp.atom_matches a c = true -> matches p s ->
    matches (RegExp.One a :: p) (String c s)
| matches_many_none a p s :
    matches p s -> matches (RegExp.Many a :: p) s
| matches_many_more a c p s :
    RegExp.atom_matches a c = true -> matches (RegExp.Many a :: p) s ->
    matches (RegExp.Many a :: p) (String c s).

(** Equal up to the case of ASCII letters. *)
Fixpoint same_ignoring_case (a b : string) : Prop :=
  match a, b with
  | EmptyString, EmptyString => True
  | String x a', String y b' =>
      Js.upper_char x = Js.upper_char y /\ same_ignoring_case a' b'
  | _, _ => False
  end.

(** A filter without pattern syntax: every character stands for itself. *)
Fixpoint ordinary (f : string) : bool :=
  match f with
  | EmptyString => true
  | String c rest => negb (RegExp.is_syntax_character c) && ordinary rest
  end.

(** The pattern that a filter of ordinary characters compiles to. *)
Fixpoint literal_pattern (f : string) : RegExp.pattern :=
  match f with
  | EmptyString => []
  | String c rest => RegExp.One (RegExp.Chr c) :: literal_pattern rest
  end.

(** Total time spent in [setTimeout] sleeps. *)
Fixpoint slept (calls : list Effect) : Z :=
  match calls with
  | [] => 0
  | Sleep ms :: rest => ms + slept rest
  | _ :: rest => slept rest
  end.

Definition listings (calls : list Effect) : nat :=
  length (filter (fun e => match e with CdpList => true | _ => false end) calls).

Fixpoint star_free (s : string) : bool :=
  match s with
  | EmptyString => true
  | String c rest => negb (Ascii.eqb c "*"%char) && star_free rest
  end.

(** An answer of the debug endpoint that [isChromeAccessible] reports as
    [accessible: false]. *)
Definition unreachable (answer : option (list Target)) : bool :=
  match answer with
  | Some (_ :: _) => false
  | _ => true
  end.

(** [n] rounds of the polling loop, as calls. *)
Fixpoint polls (n : nat) (delayMs : Z) : list Effect :=
  match n with
  | O => []
  | S n' => CdpList :: Sleep delayMs :: polls n' delayMs
  end.

(** The state after [n] more listings of the endpoint have been answered and
    [calls] have been made, the module variables being as they were. *)
Definition advanced (s : State) (n : nat) (calls : list Effect) : State :=
  {| chromeProcess := chromeProcess s;
     networkRequests := networkRequests s;
     cdpClient := cdpClient s;
     endpoint := skipn n (endpoint s);
     next_client := next_client s;
     trace := trace s ++ calls |}.

Definition already_running_report (targets : list Target) : string :=
  "Chrome debug instance is already running on port 9222" ++ nl
  ++ "Active targets: " ++ Js.string_of_nat (length targets).

Definition startup_timeout_report : string :=
  "Failed to start Chrome: Failed to start Chrome: Chrome started but debugging interface is not accessible after 7.5 seconds".

(** *** Sample data *)

Definition sample_response (code : Z) : ResponsePayload :=
  {| rp_url := "http://a/x"; rp_status := code; rp_statusText := EmptyString;
     rp_headers := []; rp_mimeType := "application/json" |}.

Definition sample_get : RequestPayload :=
  {| req_url := "http://a/x"; req_method := "GET"; req_headers := [];
     req_postData := None |}.

Definition sample_env : Env :=
  {| platform := "linux";
     tmp_profile_dir := "/tmp/chrome-debug-0";
     pkill_spawns := true;
     spawn_chrome := Spawned 4242;
     rejects := fun _ => None;
     response_body := fun _ => None;
     request_post_data := fun _ => None |}.

Definition page_target : Target :=
  {| target_type := "page"; webSocketDebuggerUrl := "ws://127.0.0.1:9222/devtools/page/A" |}.

Definition worker_target : Target :=
  {| target_type := "service_worker";
     webSocketDebuggerUrl := "ws://127.0.0.1:9222/devtools/page/W" |}.

(** A client whose socket has been closed ([readyState] 3). *)
Definition stale_client : CdpClient :=
  {| client_id := 0; client_target := "ws://127.0.0.1:9222/devtools/page/OLD";
     readyState := Some 3 |}.

(** A session with one record, a closed client and a reachable endpoint. *)
Definition stale_session : State :=
  {| chromeProcess := None;
     networkRequests := requestWillBeSent "r1" sample_get 1 JsMap.empty;
     cdpClient := Some stale_client;
     endpoint := [Some [worker_target; page_target]; Some [worker_target; page_target]];
     next_client := 1;
     trace := [] |}.

Definition three_records : JsMap.t :=
  ingest [ RequestWillBeSent "r1" sample_get 1;
           RequestWillBeSent "r2" sample_get 3;
           RequestWillBeSent "r3" sample_get 2 ] JsMap.empty.

Definition sample_post : RequestPayload :=
  {| req_url := "http://a/submit"; req_method := "POST"; req_headers := [("Accept", "*/*")];
     req_postData := None |}.

Definition open_client : CdpClient :=
  {| client_id := 0; client_target := "ws://127.0.0.1:9222/devtools/page/A";
     readyState := Some 1 |}.

(** A session with an open client and one answered POST request; in
    [sample_env] both body fetches for it reject. *)
Definition details_session : State :=
  {| chromeProcess := None;
     networkRequests :=
       ingest [ RequestWillBeSent "r1" sample_post 1;
                ResponseReceived "r1" (sample_response 201) 2 ] JsMap.empty;
     cdpClient := Some open_client;
     endpoint := [Some [page_target]];
     next_client := 1;
     trace := [] |}.

Definition body_error_marker : string := "Could not retrieve response body".

(** ** [formatMarkdown] (index.ts 289-334)

    [new URL(u).hostname] is a built-in of the host and is taken as a
    parameter: [None] when the constructor throws. *)

(** [String.prototype.endsWith]. *)
Fixpoint ends_with (s suffix : string) : bool :=
  String.eqb s suffix ||
  match s with
  | EmptyString => false
  | String _ s' => ends_with s' suffix
  end.

(** The rest of [s] after its first [n] characters. *)
Fixpoint drop (n : nat) (s : string) : string :=
  match n, s with
  | O, _ => s
  | S n', String _ s' => drop n' s'
  | S _, EmptyString => EmptyString
  end.

(** What follows a leading [http://] or [https://] (the [^https?:\/\/] of
    the pattern, which has no [i] flag). *)
Definition after_scheme (u : string) : option string :=
  if Js.starts_with "https://" u then Some (drop 8 u)
  else if Js.starts_with "http://" u then Some (drop 7 u)
  else None.

(** The rest of [s] from its first [/] on: what [[^\/]+] leaves. *)
Fixpoint from_slash (s : string) : string :=
  match s with
  | EmptyString => EmptyString
  | String c s' => if Ascii.eqb c "/" then s else from_slash s'
  end.

(** [u.replace(/^https?:\/\/[^\/]+/, "")]: the match needs at least one
    character of host; without a match the string is returned as it is. *)
Definition strip_origin (u : string) : string :=
  match after_scheme u with
  | Some (String c rest) => if Ascii.eqb c "/" then u else from_slash rest
  | _ => u
  end.

(** [req.url.replace(...) || "/"] *)
Definition path_of (u : string) : string :=
  match strip_origin u with
  | EmptyString => "/"
  | p => p
  end.

(** The hourglass shown for a request without status, as UTF-8. *)
Definition hourglass : string :=
  String (ascii_of_nat 226) (String (ascii_of_nat 143) (String (ascii_of_nat 179) EmptyString)).

(** [req.response?.status || fallback] in a template literal. *)
Definition status_or (fallback : string) (req : NetworkRecord) : string :=
  match response req with
  | Some r =>
      match status r with
      | Some st => if st =? 0 then fallback else Js.string_of_Z st
      | None => fallback
      end
  | None => fallback
  end.

(** [req.method || "GET"] *)
Definition method_or_GET (req : NetworkRecord) : string :=
  if Js.truthy_string (method req) then Js.template (method req) else "GET".

(** The [domains] map of [formatMarkdown], in insertion order, and
    [domains.get(d).push(req)] after the [has]/[set] of a new key. *)
Fixpoint push_domain (d : string) (req : NetworkRecord)
    (domains : list (string * list NetworkRecord)) : list (string * list NetworkRecord) :=
  match domains with
  | [] => [(d, [req])]
  | (d', rs) :: rest =>
      if String.eqb d d' then (d', (rs ++ [req])%list) :: rest
      else (d', rs) :: push_domain d req rest
  end.

(** [(a, b) => b[1].length - a[1].length] *)
Definition by_count_desc (a b : string * list NetworkRecord) : Q :=
  inject_Z (Z.of_nat (length (snd b)) - Z.of_nat (length (snd a))).

Section Markdown.

Variable hostname : string -> option string.

(** [try { domain = new URL(req.url).hostname } catch { "invalid-url" }];
    the constructor applies [ToString] to its argument. *)
Definition domain_of (req : NetworkRecord) : string :=
  match hostname (Js.template (url req)) with
  | Some d => d
  | None => "invalid-url"
  end.

(** [requests.forEach(req => ...)] over the [domains] map. *)
Definition group_by_domain (requests : list NetworkRecord)
    : list (string * list NetworkRecord) :=
  fold_left (fun domains req => push_domain (domain_of req) req domains) requests [].

(** [Array.from(domains.entries()).sort(...)] *)
Definition sortedDomains (requests : list NetworkRecord)
    : list (string * list NetworkRecord) :=
  Js.sort by_count_desc (group_by_domain requests).

(** One line of a bucket; [None] when [req.url.replace] throws [TypeError]
    because [req.url] is [undefined]. *)
Definition request_line (req : NetworkRecord) : option string :=
  match url req with
  | Some u =>
      Some (method_or_GET req ++ " " ++ status_or hourglass req ++ " " ++ path_of u
            ++ " [" ++ Js.template (requestId req) ++ "]" ++ nl)
  | None => None
  end.

(** [md += ...] over a list of pieces, up to the first that throws. *)
Fixpoint append_all {A} (render : A -> option string) (items : list A) (md : string)
    : option string :=
  match items with
  | [] => Some md
  | x :: rest =>
      match render x with
      | Some piece => append_all render rest (md ++ piece)
      | None => None
      end
  end.

(** The body of the [for (const [domain, domainRequests] of sortedDomains)] loop. *)
Definition domain_block (entry : string * list NetworkRecord) : option string :=
  match append_all request_line (snd entry)
          (fst entry ++ " (" ++ Js.string_of_nat (length (snd entry)) ++ "):" ++ nl) with
  | Some block => Some (block ++ nl)
  | None => None
  end.

(** [formatMarkdown(requests)]; [None] when it throws. *)
Definition formatMarkdown (requests : list NetworkRecord) : option string :=
  match requests with
  | [] => Some "## No network requests found"
  | _ =>
      append_all domain_block (sortedDomains requests)
        ("## Network Traffic (" ++ Js.string_of_nat (length requests) ++ " requests)"
         ++ nl ++ nl)
  end.

(** The records of the bucket for [d] ([[]] when there is none). *)
Fixpoint bucket (d : string) (domains : list (string * list NetworkRecord))
    : list NetworkRecord :=
  match domains with
  | [] => []
  | (d', rs) :: rest => if String.eqb d d' then rs else bucket d rest
  end.

End Markdown.

(** ** The summary of [open-url] (index.ts 666-716) *)

(** [String.prototype.toUpperCase], on ASCII. *)
Fixpoint toUpperCase (s : string) : string :=
  match s with
  | EmptyString => EmptyString
  | String c s' => String (Js.upper_char c) (toUpperCase s')
  end.

Definition static_extensions : list string :=
  ["png"; "jpg"; "jpeg"; "gif"; "svg"; "ico"; "woff"; "woff2"; "ttf"].

(** [u.match(/\.(png|jpg|jpeg|gif|svg|ico|woff|woff2|ttf)$/i)] finds a match:
    under the [i] flag both sides are compared upper-cased, and [$] is the
    end of the string. *)
Definition has_static_extension (u : string) : bool :=
  existsb (fun ext => ends_with (toUpperCase u) (toUpperCase ("." ++ ext)))
          static_extensions.

(** [req.response?.mimeType || ''] *)
Definition mime_of (req : NetworkRecord) : string :=
  match response req with
  | Some r =>
      match mimeType r with
      | Some m => m
      | None => EmptyString
      end
  | None => EmptyString
  end.

(** The local [isApiRequest]. *)
Definition isApiRequest (req : NetworkRecord) (u : string) : bool :=
  negb (Js.includes (mime_of req) "text/html")
  && negb (Js.includes (mime_of req) "text/css")
  && negb (Js.includes (mime_of req) "javascript")
  && negb (Js.includes (mime_of req) "image/")
  && negb (ends_with u ".css")
  && negb (ends_with u ".js")
  && negb (has_static_extension u).

Section Summary.

Variable hostname : string -> option string.

(** The predicate of [requests.filter(...)]: [false] from the [catch] when
    the url does not parse, and for a record without url, on which either
    the constructor or [req.url.endsWith] throws unless the mime type has
    already settled the answer. *)
Definition is_api_request (targetDomain : string) (req : NetworkRecord) : bool :=
  match url req with
  | Some u =>
      match hostname u with
      | Some reqDomain => String.eqb reqDomain targetDomain && isApiRequest req u
      | None => false
      end
  | None => false
  end.

(** One entry of [apiRequestDetails]. *)
Definition api_line (req : NetworkRecord) : string :=
  "  " ++ method_or_GET req ++ " " ++ status_or "pending" req ++ " "
  ++ Js.template (url req) ++ " [" ++ Js.template (requestId req) ++ "]".

(** [lines.join("\n")] *)
Fixpoint join_lines (lines : list string) : string :=
  match lines with
  | [] => EmptyString
  | [l] => l
  | l :: rest => l ++ nl ++ join_lines rest
  end.

(** The text [open-url] returns once the wait is over; [None] when
    [new URL(url)] throws, which the handler's [catch] turns into its error
    text. *)
Definition open_url_summary (to : string) (pageLoadRequests : JsMap.t) : option string :=
  let requests := JsMap.values pageLoadRequests in
  match hostname to with
  | None => None
  | Some targetDomain =>
      let apiRequestDetails :=
        join_lines (map api_line (filter (is_api_request targetDomain) requests)) in
      Some ("Successfully loaded page: " ++ to ++ nl ++ nl
            ++ "Network Traffic Summary:" ++ nl
            ++ "- Total network requests: " ++ Js.string_of_nat (length requests) ++ nl ++ nl
            ++ "API Requests (same domain):" ++ nl
            ++ (match apiRequestDetails with
                | EmptyString => "  None"
                | details => details
                end) ++ nl ++ nl
            ++ "Page loaded and network traffic settled after 1 second of inactivity.")
  end.

End Summary.

(** ** Vocabulary of the further statements *)

(** The [requestId] an event carries. *)
Definition event_id (e : NetworkEvent) : string :=
  match e with
  | RequestWillBeSent rid _ _ => rid
  | ResponseReceived rid _ _ => rid
  end.

(** [Array.from(m.keys())]. *)
Definition keys (m : JsMap.t) : list string := map fst m.

(** The network events among the callbacks of a page load, in order. *)
Fixpoint events_of (cbs : list Callback) : list NetworkEvent :=
  match cbs with
  | [] => []
  | NetworkActivity _ e :: rest => e :: events_of rest
  | IntervalTick _ :: rest => events_of rest
  end.

(** Records whose effective timestamp is [t]. *)
Definition stamped (t : Q) (r : NetworkRecord) : bool :=
  Qeq_bool (effective_timestamp r) t.

(** No line terminator in [s]: what [.*] can run over. *)
Fixpoint one_line (s : string) : Prop :=
  match s with
  | EmptyString => True
  | String c rest => RegExp.is_line_terminator c = false /\ one_line rest
  end.

(** No [/] in [s]. *)
Fixpoint slash_free (s : string) : bool :=
  match s with
  | EmptyString => true
  | String c rest => negb (Ascii.eqb c "/") && slash_free rest
  end.

(** The test the query applies to urls: none without a (truthy) filter. *)
Definition url_test (RegExp_i : string -> option (string -> bool))
    (urlFilter : option string) : option (string -> bool) :=
  if Js.truthy_string urlFilter then RegExp_i (replace_star (Js.template urlFilter))
  else None.

(** A record that passes every filter in force. *)
Definition selected (pattern_test : option (string -> bool)) (m : option string)
    (statusCode : option Z) (req : NetworkRecord) : bool :=
  match pattern_test with
  | Some t => t (Js.template (url req))
  | None => true
  end
  && (if Js.truthy_string m then method_equals (Js.template m) req else true)
  && match statusCode with
     | Some code => (code =? 0) || status_equals code req
     | None => true
     end.

(** The records [formatMarkdown] files under the domain [d]. *)
Definition in_domain (hostname : string -> option string) (d : string)
    (req : NetworkRecord) : bool :=
  String.eqb (domain_of hostname req) d.

(** [a] may precede [b] in the listing of buckets. *)
Definition not_smaller (a b : string * list NetworkRecord) : Prop :=
  (length (snd b) <= length (snd a))%nat.

(** What precedes the first [/] of [s]. *)
Fixpoint until_slash (s : string) : string :=
  match s with
  | EmptyString => EmptyString
  | String c s' => if Ascii.eqb c "/" then EmptyString else String c (until_slash s')
  end.

(** A stand-in for [new URL(u).hostname] in the examples, which use it on
    two kinds of text only: [http(s)://] followed by a lower-case host name
    without port or user information, where the host name is the text up to
    the next [/]; and text without a scheme, which the constructor rejects.
    On other text (a url with another scheme, an upper-case host, a port) it
    is not the built-in. *)
Definition sample_hostname (u : string) : option string :=
  match after_scheme u with
  | Some rest =>
      match until_slash rest with
      | EmptyString => None
      | h => Some h
      end
  | None => None
  end.

(** A computation that ends the host process in no state. *)
Definition never_crashes {A} (m : M A) : Prop :=
  forall s, match fst (m s) with Crash _ => False | _ => True end.

(** A handler that hands a result back in every state. *)
Definition always_returns {A} (m : M A) : Prop :=
  forall s, exists a s', m s = (Return a, s').

Definition is_subscribe (e : Effect) : bool :=
  match e with
  | Subscribe _ _ => true
  | _ => false
  end.

Definition started_report (child : Z) (dir : string) (count : nat) : string :=
  "Chrome debug instance started successfully!" ++ nl
  ++ "PID: " ++ Js.string_of_Z child ++ nl
  ++ "Debugging port: 9222" ++ nl
  ++ "User data directory: " ++ dir ++ nl
  ++ "Active targets: " ++ Js.string_of_nat count.

(** The profile directory the browser is started with. *)
Definition profile_dir (env : Env) (userDataDir : option string) : string :=
  if Js.truthy_string userDataDir then Js.template userDataDir else tmp_profile_dir env.

Definition foo_get : RequestPayload :=
  {| req_url := "https://FOO.com/x"; req_method := "GET"; req_headers := [];
     req_postData := None |}.

Definition abc_get : RequestPayload :=
  {| req_url := "abc"; req_method := "GET"; req_headers := [];
     req_postData := None |}.

(** A session with an open client, a reachable endpoint and three requests
    seen. *)
Definition filter_session : State :=
  {| chromeProcess := None;
     networkRequests :=
       ingest [ RequestWillBeSent "r1" foo_get 1;
                RequestWillBeSent "r2" abc_get 2;
                RequestWillBeSent "r3" sample_get 3 ] JsMap.empty;
     cdpClient := Some open_client;
     endpoint := [Some [page_target]];
     next_client := 1;
     trace := [] |}.

(** ** Properties of the record store *)

Lemma JsMap_get_set_same (k : string) (v : NetworkRecord) (m : JsMap.t) :
  JsMap.get k (JsMap.set k v m) = Some v.
Proof.
  induction m as [| [k' v'] m IH]; simpl.
  - now rewrite String.eqb_refl.
  - destruct (String.eqb k k') eqn:E; simpl.
    + now rewrite String.eqb_refl.
    + now rewrite E.
Qed.

Lemma JsMap_get_set_other (k k' : string) (v : NetworkRecord) (m : JsMap.t) :
  k <> k' -> JsMap.get k' (JsMap.set k v m) = JsMap.get k' m.
Proof.
  intros Hne. induction m as [| [k0 v0] m IH]; simpl.
  - destruct (String.eqb k' k) eqn:E; [|reflexivity].
    apply String.eqb_eq in E. congruence.
  - destruct (String.eqb k k0) eqn:E; simpl.
    + apply String.eqb_eq in E. subst k0.
      destruct (String.eqb k' k) eqn:E'; [|reflexivity].
      apply String.eqb_eq in E'. congruence.
    + destruct (String.eqb k' k0); [reflexivity | exact IH].
Qed.

Lemma ingest_app (es es' : list NetworkEvent) (m : JsMap.t) :
  ingest (es ++ es') m = ingest es' (ingest es m).
Proof. unfold ingest. apply fold_left_app. Qed.

(** Responses for one id, arriving on top of a record [e], leave a record
    with the request side of [e] and the last response. *)
Lemma ingest_responses (rid : string) (rs : list (ResponsePayload * Q)) :
  forall (m : JsMap.t) (e : NetworkRecord),
    JsMap.get rid m = Some e ->
    JsMap.get rid (ingest (map (response_event rid) rs) m)
    = Some match final_response rs with
           | Some r => spread_response e rid (fst r) (snd r)
           | None => e
           end.
Proof.
  induction rs as [| r rs IH]; intros m e Hget; simpl.
  - exact Hget.
  - unfold ingest in *. simpl.
    rewrite (IH _ (spread_response e rid (fst r) (snd r))).
    + destruct (final_response rs); reflexivity.
    + unfold responseReceived. rewrite Hget. apply JsMap_get_set_same.
Qed.

(** C1, as amended.  Whatever was ingested before, once a request event for
    [rid] is followed only by response events for [rid], the record for
    [rid] has the request fields of that request event and the response
    fields of the last response event; when no response follows the request
    event (in particular, when the responses all came before it), the record
    is the request's alone and has no response. *)
Theorem request_then_responses_merge :
  forall (m : JsMap.t) (before : list NetworkEvent) (rid : string)
         (rq : RequestPayload) (ts : Q) (rs : list (ResponsePayload * Q)),
    JsMap.get rid
      (ingest (before ++ RequestWillBeSent rid rq ts :: map (response_event rid) rs) m)
    = Some {| requestId := Some rid;
              url := Some (req_url rq);
              method := Some (req_method rq);
              headers := Some (req_headers rq);
              postData := req_postData rq;
              timestamp := Some ts;
              type := Some "request";
              response := option_map (fun r => response_of (fst r)) (final_response rs);
              responseTimestamp := option_map snd (final_response rs) |}.
Proof.
  intros m before rid rq ts rs.
  rewrite ingest_app.
  change (ingest (RequestWillBeSent rid rq ts :: map (response_event rid) rs)
                 (ingest before m))
    with (ingest (map (response_event rid) rs)
                 (requestWillBeSent rid rq ts (ingest before m))).
  rewrite (ingest_responses rid rs _ (request_record rid rq ts)).
  - destruct (final_response rs); reflexivity.
  - apply JsMap_get_set_same.
Qed.

(** C1, as stated, fails: a response that arrives before its request is
    dropped by the request handler, so the two orders end in different
    records. *)
Lemma response_before_request_is_lost :
  let rq := RequestWillBeSent "r1" sample_get 1 in
  let rp := ResponseReceived "r1" (sample_response 200) 2 in
  JsMap.get "r1" (ingest [rp; rq] JsMap.empty)
    <> JsMap.get "r1" (ingest [rq; rp] JsMap.empty)
  /\ option_map response (JsMap.get "r1" (ingest [rp; rq] JsMap.empty)) = Some None
  /\ option_map response (JsMap.get "r1" (ingest [rq; rp] JsMap.empty))
     = Some (Some (response_of (sample_response 200))).
Proof.
  cbv zeta. repeat split; try reflexivity.
  vm_compute. discriminate.
Qed.

(** C6.  A response event for an id the store does not know leaves a record
    for that id without any request field and with the event's status; a
    response event for a known id keeps every request field of the record
    and sets the response fields from the event. *)
Theorem response_merges_into_record :
  forall (m : JsMap.t) (rid : string) (rp : ResponsePayload) (ts : Q),
    (JsMap.get rid m = None ->
     exists r, JsMap.get rid (responseReceived rid rp ts m) = Some r
       /\ url r = None /\ method r = None /\ headers r = None
       /\ postData r = None /\ timestamp r = None
       /\ option_map status (response r) = Some (Some (rp_status rp)))
    /\ (forall e, JsMap.get rid m = Some e ->
        exists r, JsMap.get rid (responseReceived rid rp ts m) = Some r
          /\ url r = url e /\ method r = method e /\ headers r = headers e
          /\ postData r = postData e /\ timestamp r = timestamp e
          /\ response r = Some (response_of rp)
          /\ responseTimestamp r = Some ts).
Proof.
  intros m rid rp ts. split.
  - intros Hnone. unfold responseReceived. rewrite Hnone.
    eexists. split; [apply JsMap_get_set_same|]. simpl. tauto.
  - intros e Hsome. unfold responseReceived. rewrite Hsome.
    eexists. split; [apply JsMap_get_set_same|]. simpl. tauto.
Qed.

Lemma response_merges_into_record_witness :
  (exists r, JsMap.get "r2" (responseReceived "r2" (sample_response 404) 5 JsMap.empty) = Some r
     /\ url r = None /\ method r = None /\ headers r = None
     /\ postData r = None /\ timestamp r = None
     /\ option_map status (response r) = Some (Some 404))
  /\ (exists r, JsMap.get "r1"
                  (responseReceived "r1" (sample_response 200) 2
                     (requestWillBeSent "r1" sample_get 1 JsMap.empty)) = Some r
        /\ url r = Some "http://a/x" /\ method r = Some "GET"
        /\ response r = Some (response_of (sample_response 200))).
Proof.
  split.
  - apply (response_merges_into_record JsMap.empty "r2" (sample_response 404) 5).
    reflexivity.
  - destruct (proj2 (response_merges_into_record
                       (requestWillBeSent "r1" sample_get 1 JsMap.empty)
                       "r1" (sample_response 200) 2)
                    (request_record "r1" sample_get 1) eq_refl)
      as (r & Hget & Hu & Hm & _ & _ & _ & Hr & _).
    exists r. repeat split; assumption.
Defined.

(** ** Properties of the query pipeline *)

Lemma sort_insert_Forall {A} (cmp : A -> A -> Q) (P : A -> Prop) (x : A) (l : list A) :
  P x -> Forall P l -> Forall P (Js.sort_insert cmp x l).
Proof.
  intros Hx Hl. induction Hl as [| y l Hy Hl IH]; simpl.
  - constructor; [assumption | constructor].
  - destruct (Qle_bool (cmp x y) 0); repeat constructor; assumption.
Qed.

Lemma not_older_trans (a b c : NetworkRecord) :
  not_older a b -> not_older b c -> not_older a c.
Proof. unfold not_older. intros Hab Hbc. eapply Qle_trans; eassumption. Qed.

Lemma sort_insert_sorted (x : NetworkRecord) (l : list NetworkRecord) :
  StronglySorted not_older l ->
  StronglySorted not_older (Js.sort_insert by_timestamp_desc x l).
Proof.
  intros Hl. induction Hl as [| y l Hl IH Hy]; simpl.
  - repeat constructor.
  - destruct (Qle_bool (by_timestamp_desc x y) 0) eqn:E.
    + apply Qle_bool_iff in E. unfold by_timestamp_desc in E.
      assert (Hxy : not_older x y).
      { unfold not_older, effective_timestamp. lra. }
      constructor; [constructor; assumption|].
      constructor; [exact Hxy|].
      eapply Forall_impl; [|exact Hy].
      intros z Hz. eapply not_older_trans; eassumption.
    + assert (Hyx : not_older y x).
      { unfold not_older, effective_timestamp.
        destruct (Qlt_le_dec 0 (by_timestamp_desc x y)) as [Hlt | Hle].
        - unfold by_timestamp_desc in Hlt. lra.
        - apply Qle_bool_iff in Hle. congruence. }
      constructor; [exact IH|].
      apply sort_insert_Forall; assumption.
Qed.

Lemma sort_sorted (l : list NetworkRecord) :
  StronglySorted not_older (Js.sort by_timestamp_desc l).
Proof.
  induction l as [| x l IH]; simpl.
  - constructor.
  - apply sort_insert_sorted. exact IH.
Qed.

Lemma firstn_Forall {A} (P : A -> Prop) (l : list A) :
  Forall P l -> forall n, Forall P (firstn n l).
Proof.
  intros Hl. induction Hl as [| x l Hx Hl IH]; intros [| n]; simpl;
    constructor; auto.
Qed.

Lemma firstn_sorted {A} (R : A -> A -> Prop) (l : list A) :
  StronglySorted R l -> forall n, StronglySorted R (firstn n l).
Proof.
  intros Hl. induction Hl as [| x l Hl IH Hx]; intros [| n]; simpl;
    constructor.
  - apply IH.
  - apply firstn_Forall, Hx.
Qed.

Lemma slice0_length {A} (l : list A) (e : Z) :
  0 <= e -> Z.of_nat (length (Js.slice0 l e)) <= e.
Proof.
  intros He. unfold Js.slice0.
  destruct (e <? 0) eqn:E; [apply Z.ltb_lt in E; lia|].
  pose proof (firstn_le_length (Z.to_nat (Z.min e (Z.of_nat (length l)))) l).
  lia.
Qed.

Lemma sort_insert_In {A} (cmp : A -> A -> Q) (x z : A) (l : list A) :
  In z (Js.sort_insert cmp x l) -> z = x \/ In z l.
Proof.
  induction l as [| y l IH]; simpl.
  - intros [<- | []]. now left.
  - destruct (Qle_bool (cmp x y) 0); simpl.
    + intros [<- | H]; auto.
    + intros [<- | H]; auto. destruct (IH H); auto.
Qed.

Lemma sort_In {A} (cmp : A -> A -> Q) (z : A) (l : list A) :
  In z (Js.sort cmp l) -> In z l.
Proof.
  induction l as [| x l IH]; simpl; [tauto|].
  intros H. destruct (sort_insert_In _ _ _ _ H) as [-> | H']; auto.
Qed.

Lemma slice0_In {A} (z : A) (l : list A) (e : Z) :
  In z (Js.slice0 l e) -> In z l.
Proof.
  unfold Js.slice0. intros H.
  rewrite <- (firstn_skipn (Z.to_nat
    (if e <? 0 then Z.max (Z.of_nat (length l) + e) 0
     else Z.min e (Z.of_nat (length l)))) l).
  apply in_or_app. now left.
Qed.

Lemma sort_and_limit_In (limit : Q) (statusCode : option Z) (m : option string)
    (l : list NetworkRecord) (z : NetworkRecord) :
  In z (sort_and_limit limit (filter_status statusCode (filter_method m l))) ->
  In z l.
Proof.
  intros H. apply slice0_In, sort_In in H.
  unfold filter_status in H.
  assert (Hm : In z (filter_method m l)).
  { destruct statusCode as [code |]; [|exact H].
    destruct (code =? 0); [exact H|]. now apply filter_In in H. }
  unfold filter_method in Hm.
  destruct (Js.truthy_string m); [now apply filter_In in Hm | exact Hm].
Qed.

Lemma ToIntegerOrInfinity_floor (q : Q) :
  (0 <= q)%Q -> Js.ToIntegerOrInfinity q = Qfloor q.
Proof.
  destruct q as [n d]. unfold Qle. simpl. intros Hn.
  unfold Js.ToIntegerOrInfinity. simpl. apply Z.quot_div_nonneg; lia.
Qed.

Lemma ToIntegerOrInfinity_below (q : Q) :
  (0 <= q)%Q ->
  0 <= Js.ToIntegerOrInfinity q /\ (inject_Z (Js.ToIntegerOrInfinity q) <= q)%Q.
Proof.
  intros Hq. rewrite (ToIntegerOrInfinity_floor q Hq). split.
  - change 0 with (Qfloor 0). now apply Qfloor_resp_le.
  - apply Qfloor_le.
Qed.

Lemma ToIntegerOrInfinity_above (q : Q) (z : Z) :
  0 <= z -> (inject_Z z <= q)%Q -> z <= Js.ToIntegerOrInfinity q.
Proof.
  intros Hz Hq.
  assert (H0 : (0 <= q)%Q).
  { eapply Qle_trans; [|exact Hq]. change 0%Q with (inject_Z 0). now rewrite <- Zle_Qle. }
  rewrite (ToIntegerOrInfinity_floor q H0), <- (Qfloor_Z z).
  now apply Qfloor_resp_le.
Qed.

(** C4.  For every expression builder, every store and every query with a
    limit [0 <= limit], whole or fractional: unless building the pattern
    throws (which only a [urlFilter] can cause), the query returns at most
    [limit] records, all of them records of the store, most recent first, a
    record without timestamp counting as timestamp zero. *)
Theorem query_limited_and_newest_first :
  forall (RegExp_i : string -> option (string -> bool)) (store : JsMap.t)
         (urlFilter m : option string) (statusCode : option Z) (limit : Q),
    (0 <= limit)%Q ->
    match query RegExp_i store urlFilter m statusCode limit with
    | Some result =>
        (inject_Z (Z.of_nat (length result)) <= limit)%Q
        /\ StronglySorted not_older result
        /\ incl result (JsMap.values store)
    | None =>
        Js.truthy_string urlFilter = true
        /\ RegExp_i (replace_star (Js.template urlFilter)) = None
    end.
Proof.
  intros RegExp_i store urlFilter m statusCode limit Hlimit.
  destruct (ToIntegerOrInfinity_below limit Hlimit) as [H0 Hle].
  assert (Hlen : forall l : list NetworkRecord,
            (inject_Z (Z.of_nat (length (Js.slice0 l (Js.ToIntegerOrInfinity limit))))
             <= limit)%Q).
  { intros l. eapply Qle_trans; [|exact Hle].
    rewrite <- Zle_Qle. now apply slice0_length. }
  unfold query, filter_url.
  destruct (Js.truthy_string urlFilter).
  - destruct (RegExp_i (replace_star (Js.template urlFilter))) as [pattern_test |].
    + split; [apply Hlen|].
      split; [apply firstn_sorted, sort_sorted|].
      intros z Hz. apply sort_and_limit_In in Hz. now apply filter_In in Hz.
    + split; reflexivity.
  - split; [apply Hlen|].
    split; [apply firstn_sorted, sort_sorted|].
    intros z Hz. now apply sort_and_limit_In in Hz.
Qed.

Lemma query_limited_and_newest_first_witness :
  match query RegExp.make_i three_records (Some "*") None None (5 # 2) with
  | Some result =>
      (inject_Z (Z.of_nat (length result)) <= 5 # 2)%Q
      /\ StronglySorted not_older result
      /\ incl result (JsMap.values three_records)
  | None =>
      Js.truthy_string (Some "*") = true
      /\ RegExp.make_i (replace_star (Js.template (Some "*"))) = None
  end.
Proof.
  apply (query_limited_and_newest_first RegExp.make_i three_records
           (Some "*") None None (5 # 2)).
  unfold Qle. simpl. lia.
Defined.

(** The pipeline on small stores. *)
Example query_newest_first :
  option_map (map requestId) (query RegExp.make_i three_records None None None 50)
  = Some [Some "r2"; Some "r3"; Some "r1"].
Proof. reflexivity. Qed.

Example query_status_filter_excludes_pending :
  query RegExp.make_i
    (ingest [ RequestWillBeSent "r1" sample_get 1;
              RequestWillBeSent "r2" sample_get 2;
              ResponseReceived "r2" (sample_response 200) 3 ] JsMap.empty)
    None None (Some 500) 50
  = Some [].
Proof. reflexivity. Qed.

Example query_method_filter_ignores_case :
  option_map (map requestId)
    (query RegExp.make_i
       (ingest [ RequestWillBeSent "r1" sample_get 1;
                 RequestWillBeSent "r2" sample_post 2 ] JsMap.empty)
       None (Some "post") None 50)
  = Some [Some "r2"].
Proof. reflexivity. Qed.

Example query_wildcard_in_the_middle :
  option_map (map requestId)
    (query RegExp.make_i
       (ingest [ RequestWillBeSent "r1" sample_get 1;
                 RequestWillBeSent "r2" sample_post 2 ] JsMap.empty)
       (Some "A/*MIT") None None 50)
  = Some [Some "r2"].
Proof. reflexivity. Qed.

(** ** Properties of the URL filter *)

Lemma filter_all {A} (f : A -> bool) (l : list A) :
  (forall x, f x = true) -> filter f l = l.
Proof.
  intros Hf. induction l as [| x l IH]; simpl; [reflexivity|].
  now rewrite Hf, IH.
Qed.

(** A pattern that starts with [.*] matches at the start of every string
    whenever the rest of it matches the empty remainder. *)
Lemma test_at_start (p : RegExp.pattern) (s : string) :
  RegExp.match_here p s = true -> RegExp.test p s = true.
Proof. intros H. destruct s; simpl; rewrite H; reflexivity. Qed.

Lemma dot_star_matches (s : string) :
  RegExp.match_here [RegExp.Many RegExp.Dot] s = true.
Proof. induction s as [| c s IH]; simpl; [reflexivity | apply orb_true_r]. Qed.

Lemma test_skips_prefix (p : RegExp.pattern) (pre s : string) :
  RegExp.test p s = true -> RegExp.test p (pre ++ s) = true.
Proof.
  intros H. induction pre as [| c pre IH]; simpl; [exact H|].
  rewrite IH. apply orb_true_r.
Qed.

(** *** The matcher against the denotation of patterns *)

Lemma match_here_many_nil (a : RegExp.atom) (p : RegExp.pattern) :
  RegExp.match_here (RegExp.Many a :: p) EmptyString = RegExp.match_here p EmptyString.
Proof. reflexivity. Qed.

Lemma match_here_many_cons (a : RegExp.atom) (p : RegExp.pattern) (d : ascii) (s : string) :
  RegExp.match_here (RegExp.Many a :: p) (String d s)
  = (RegExp.atom_matches a d && RegExp.match_here (RegExp.Many a :: p) s)
    || RegExp.match_here p (String d s).
Proof. reflexivity. Qed.

Lemma match_here_many_none (a : RegExp.atom) (p : RegExp.pattern) (s : string) :
  RegExp.match_here p s = true -> RegExp.match_here (RegExp.Many a :: p) s = true.
Proof.
  intros H. destruct s.
  - now rewrite match_here_many_nil.
  - rewrite match_here_many_cons, H. apply orb_true_r.
Qed.

Lemma match_here_sound (p : RegExp.pattern) :
  forall s, RegExp.match_here p s = true ->
            exists mid post, s = mid ++ post /\ matches p mid.
Proof.
  induction p as [| [a | a] p IH]; intros s H.
  - exists EmptyString, s. split; [reflexivity | constructor].
  - destruct s as [| d s]; [discriminate|].
    simpl in H. apply andb_true_iff in H as [Ha Hp].
    destruct (IH s Hp) as (mid & post & -> & Hm).
    exists (String d mid), post. split; [reflexivity | now constructor].
  - induction s as [| d s IHs].
    + rewrite match_here_many_nil in H.
      destruct (IH EmptyString H) as (mid & post & E & Hm).
      exists mid, post. split; [exact E | now constructor].
    + rewrite match_here_many_cons in H. apply orb_true_iff in H as [H | H].
      * apply andb_true_iff in H as [Ha Hs].
        destruct (IHs Hs) as (mid & post & -> & Hm).
        exists (String d mid), post. split; [reflexivity | now constructor].
      * destruct (IH _ H) as (mid & post & E & Hm).
        exists mid, post. split; [exact E | now constructor].
Qed.

Lemma match_here_complete (p : RegExp.pattern) (mid : string) :
  matches p mid -> forall post, RegExp.match_here p (mid ++ post) = true.
Proof.
  induction 1 as [| a c p s Ha Hm IH | a p s Hm IH | a c p s Ha Hm IH]; intros post.
  - reflexivity.
  - simpl. now rewrite Ha, IH.
  - apply match_here_many_none, IH.
  - change (String c s ++ post) with (String c (s ++ post)).
    now rewrite match_here_many_cons, Ha, IH.
Qed.

(** [test] succeeds exactly on the strings that contain a match. *)
Lemma test_unanchored (p : RegExp.pattern) (s : string) :
  RegExp.test p s = true
  <-> exists pre mid post, s = pre ++ mid ++ post /\ matches p mid.
Proof.
  split.
  - induction s as [| c s IH]; simpl; intros H.
    + rewrite orb_false_r in H.
      destruct (match_here_sound p EmptyString H) as (mid & post & E & Hm).
      exists EmptyString, mid, post. auto.
    + apply orb_true_iff in H as [H | H].
      * destruct (match_here_sound p _ H) as (mid & post & E & Hm).
        exists EmptyString, mid, post. auto.
      * destruct (IH H) as (pre & mid & post & -> & Hm).
        exists (String c pre), mid, post. auto.
  - intros (pre & mid & post & -> & Hm).
    apply test_skips_prefix, test_at_start, match_here_complete, Hm.
Qed.

Lemma matches_literal (f mid : string) :
  matches (literal_pattern f) mid <-> same_ignoring_case f mid.
Proof.
  revert mid. induction f as [| c f IH]; intros mid; simpl.
  - split.
    + inversion 1. exact I.
    + destruct mid; [constructor | contradiction].
  - split.
    + inversion 1; subst. simpl in *. split.
      * now apply Ascii.eqb_eq.
      * now apply IH.
    + destruct mid as [| d mid]; [contradiction|]. intros [Hc Hs].
      constructor; [simpl; now apply Ascii.eqb_eq | now apply IH].
Qed.

Lemma parse_step (c : ascii) (rest : string) (a : RegExp.atom) :
  RegExp.parse_atom c = Some a ->
  match rest with
  | String c' _ => Ascii.eqb c' "*" = false
  | EmptyString => True
  end ->
  RegExp.parse (String c rest)
  = match RegExp.parse rest with
    | Some p => Some (RegExp.One a :: p)
    | None => None
    end.
Proof.
  intros Ha Hrest. destruct rest as [| c' rest].
  - simpl. now rewrite Ha.
  - destruct c' as [[] [] [] [] [] [] [] []];
      try discriminate Hrest;
      cbn [RegExp.parse]; rewrite Ha; reflexivity.
Qed.

Lemma ordinary_head (c : ascii) (rest : string) :
  ordinary (String c rest) = true -> Ascii.eqb c "*" = false.
Proof.
  simpl. intros H. apply andb_true_iff in H as [H _].
  destruct (Ascii.eqb c "*") eqn:E; [|reflexivity].
  apply Ascii.eqb_eq in E. subst c. discriminate.
Qed.

Lemma parse_ordinary (f : string) :
  ordinary f = true -> RegExp.parse f = Some (literal_pattern f).
Proof.
  induction f as [| c f IH]; intros H; [reflexivity|].
  pose proof H as H'. simpl in H'. apply andb_true_iff in H' as [Hc Hf].
  rewrite (parse_step c f (RegExp.Chr c)).
  - now rewrite (IH Hf).
  - unfold RegExp.parse_atom.
    destruct (Ascii.eqb c ".") eqn:E.
    + apply Ascii.eqb_eq in E. subst c. discriminate.
    + apply negb_true_iff in Hc. now rewrite Hc.
  - destruct f as [| c' f']; [exact I | now apply (ordinary_head c' f')].
Qed.

Lemma replace_star_ordinary (f : string) :
  ordinary f = true -> replace_star f = f.
Proof.
  induction f as [| c f IH]; intros H; [reflexivity|].
  simpl. rewrite (ordinary_head c f H).
  simpl in H. apply andb_true_iff in H as [_ Hf]. now rewrite IH.
Qed.

Lemma replace_star_free (f : string) :
  star_free f = true -> replace_star f = f.
Proof.
  induction f as [| c f IH]; simpl; [reflexivity|].
  destruct (Ascii.eqb c "*"); simpl; [discriminate|].
  intros H. now rewrite IH.
Qed.

Lemma replace_star_app (f g : string) :
  replace_star (f ++ g) = replace_star f ++ replace_star g.
Proof.
  induction f as [| c f IH]; simpl; [reflexivity|].
  destruct (Ascii.eqb c "*"); simpl; now rewrite IH.
Qed.

(** ** Properties of the handlers *)

Section HostProperties.

Variable env : Env.

Lemma skipn_tl {A} (n : nat) (l : list A) : skipn n (tl l) = skipn (S n) l.
Proof. destruct l; [destruct n|]; reflexivity. Qed.

Lemma nth_tl {A} (n : nat) (l : list A) (d : A) : nth n (tl l) d = nth (S n) l d.
Proof. destruct l; [destruct n|]; reflexivity. Qed.

Lemma nth_after_skipn {A} (k n : nat) (l : list A) (d : A) :
  nth n (skipn k l) d = nth (k + n) l d.
Proof.
  revert l. induction k as [| k IH]; intros l; [reflexivity|].
  destruct l; simpl; [destruct n; reflexivity | apply IH].
Qed.

Lemma isChromeAccessible_reachable (s : State) (targets rest : list _) :
  endpoint s = Some targets :: rest -> targets <> [] ->
  isChromeAccessible s = (Return (true, Some targets), advanced s 1 [CdpList]).
Proof.
  intros He Hne. unfold isChromeAccessible, try_catch, bind, CDP_List, advanced.
  rewrite He. destruct targets; [congruence|]. reflexivity.
Qed.

Lemma isChromeAccessible_unreachable (s : State) :
  unreachable (nth 0 (endpoint s) None) = true ->
  exists targets,
    isChromeAccessible s = (Return (false, targets), advanced s 1 [CdpList]).
Proof.
  intros Hu. unfold isChromeAccessible, try_catch, bind, CDP_List, advanced.
  destruct (endpoint s) as [| [[| t ts] |] rest]; simpl in *;
    try discriminate; eexists; reflexivity.
Qed.

Lemma advanced_advanced (s : State) (n n' : nat) (calls calls' : list Effect) :
  advanced (advanced s n calls) n' calls' = advanced s (n' + n) (calls ++ calls').
Proof.
  unfold advanced. simpl. f_equal.
  - apply skipn_skipn.
  - symmetry. apply app_assoc.
Qed.

Lemma log_advanced (e : Effect) (s : State) :
  log e s = (Return tt, advanced s 0 [e]).
Proof. reflexivity. Qed.

(** The polling loop against an endpoint that stays unreachable: [n] listings,
    [n] sleeps, answer [false]. *)
Lemma waitForChromeAccessible_unreachable (delayMs : Z) (n : nat) :
  forall s : State,
    (forall i, (i < n)%nat -> unreachable (nth i (endpoint s) None) = true) ->
    waitForChromeAccessible n delayMs s = (Return false, advanced s n (polls n delayMs)).
Proof.
  induction n as [| n IH]; intros s Hu; simpl.
  - unfold ret, advanced. simpl. rewrite app_nil_r. now destruct s.
  - destruct (isChromeAccessible_unreachable s) as [targets Hprobe].
    { apply Hu. lia. }
    unfold bind at 1. rewrite Hprobe. simpl.
    unfold bind at 1. rewrite log_advanced.
    rewrite IH.
    + rewrite !advanced_advanced. simpl.
      replace (n + 0 + 1)%nat with (S n) by lia. reflexivity.
    + intros i Hi. rewrite advanced_advanced. cbn [endpoint advanced].
      rewrite nth_after_skipn. apply Hu. lia.
Qed.

Lemma isChromeAccessible_total (s : State) :
  exists accessible targets,
    isChromeAccessible s = (Return (accessible, targets), advanced s 1 [CdpList]).
Proof.
  unfold isChromeAccessible, try_catch, bind, CDP_List, advanced.
  destruct (endpoint s) as [| [[| t ts] |] rest]; simpl; unfold ret; eauto.
Qed.

(** X28.  The polling loop always returns, after at most [maxRetries] listings and
    at most [maxRetries * delayMs] ms of sleep. *)
Lemma waitForChromeAccessible_bounded (delayMs : Z) (maxRetries : nat) :
  0 <= delayMs ->
  forall s : State,
    exists (b : bool) (calls : list Effect),
      waitForChromeAccessible maxRetries delayMs s
      = (Return b, advanced s (listings calls) calls)
      /\ (listings calls <= maxRetries)%nat
      /\ slept calls <= Z.of_nat maxRetries * delayMs.
Proof.
  intros Hd. induction maxRetries as [| n IH]; intros s.
  - exists false, []. unfold advanced. simpl. rewrite app_nil_r.
    split; [now destruct s | split; [reflexivity | lia]].
  - destruct (isChromeAccessible_total s) as (accessible & targets & Hprobe).
    cbn [waitForChromeAccessible].
    unfold bind at 1. rewrite Hprobe. destruct accessible; cbn [fst].
    + exists true, [CdpList]. split; [reflexivity|].
      split; [unfold listings; simpl; lia |].
      cbn [slept]. apply Z.mul_nonneg_nonneg; lia.
    + unfold bind at 1. rewrite log_advanced.
      destruct (IH (advanced (advanced s 1 [CdpList]) 0 [Sleep delayMs]))
        as (b & calls & Hrun & Hl & Hs).
      exists b, (CdpList :: Sleep delayMs :: calls). rewrite Hrun.
      rewrite !advanced_advanced.
      split; [|split].
      * replace (listings (CdpList :: Sleep delayMs :: calls))
          with (listings calls + 0 + 1)%nat by (unfold listings; simpl; lia).
        reflexivity.
      * unfold listings in *. simpl. lia.
      * cbn [slept]. rewrite Nat2Z.inj_succ. lia.
Qed.

Example fifteen_polls_take_7500_ms :
  slept (polls 15 500) = 7500 /\ listings (polls 15 500) = 15%nat.
Proof. split; reflexivity. Qed.

(** C8.  When the endpoint answers the first listing with at least one
    target, [start-chrome-debug] returns the already-running report with the
    number of targets; the only call it makes is that listing, so nothing is
    spawned or killed, and [chromeProcess], [networkRequests] and
    [cdpClient] are what they were. *)
Theorem start_when_already_running :
  forall (s : State) (userDataDir : option string) (headless : bool)
         (targets : list Target) (rest : list (option (list Target))),
    endpoint s = Some targets :: rest ->
    targets <> [] ->
    start_chrome_debug env userDataDir headless s
    = (Return (Text (already_running_report targets)), advanced s 1 [CdpList]).
Proof.
  intros s userDataDir headless targets rest He Hne.
  unfold start_chrome_debug, try_catch, bind.
  rewrite (isChromeAccessible_reachable s targets rest He Hne). reflexivity.
Qed.

(** C7.  When the browser has been spawned and the fifteen listings of the
    polling loop, like the listing before the spawn, find the endpoint
    unreachable, the handler gives up after these fifteen polls and fifteen
    sleeps of 500 ms (7500 ms in all): it kills the child, resets
    [chromeProcess] and returns the text of the failure to its caller; no
    exception leaves the handler. *)
Theorem start_times_out_and_cleans_up :
  forall (s : State) (userDataDir : option string) (headless : bool) (child : Z),
    pkill_spawns env = true ->
    spawn_chrome env = Spawned child ->
    rejects env (ChildKill child) = None ->
    (forall i, (i < 16)%nat -> unreachable (nth i (endpoint s) None) = true) ->
    start_chrome_debug env userDataDir headless s
    = (Return (Text startup_timeout_report),
       {| chromeProcess := None;
          networkRequests := networkRequests s;
          cdpClient := cdpClient s;
          endpoint := skipn 16 (endpoint s);
          next_client := next_client s;
          trace := trace s
                   ++ [CdpList; Pkill; Sleep 1000;
                       Spawn (getChromeExecutablePath env)
                             (chromeArgs
                                (if Js.truthy_string userDataDir
                                 then Js.template userDataDir
                                 else tmp_profile_dir env) headless)]
                   ++ polls 15 500
                   ++ [ChildKill child] |}).
Proof.
  intros s userDataDir headless child Hpkill Hspawn Hkill Hu.
  destruct (isChromeAccessible_unreachable s) as [targets Hprobe].
  { apply Hu. lia. }
  unfold start_chrome_debug, try_catch.
  unfold bind at 1. rewrite Hprobe. cbn [fst].
  unfold bind at 1.
  unfold killChromeDebugProcesses, try_catch. rewrite Hpkill.
  unfold bind at 1. rewrite !log_advanced.
  unfold bind at 1.
  unfold spawn_chromeProcess. rewrite Hspawn.
  unfold bind at 1. rewrite log_advanced.
  unfold set_chromeProcess at 1.
  unfold bind at 1.
  rewrite (waitForChromeAccessible_unreachable 500 15).
  - unfold bind, get_state, perform, bind, log, set_chromeProcess, advanced.
    cbn -[skipn polls app]. rewrite Hkill. unfold throw, ret.
    cbn -[skipn polls app]. do 2 f_equal.
    + destruct (endpoint s); reflexivity.
    + rewrite <- !app_assoc. reflexivity.
  - intros i Hi. rewrite !advanced_advanced. cbn [endpoint advanced].
    rewrite nth_after_skipn. apply Hu. lia.
Qed.

End HostProperties.

Lemma start_when_already_running_witness :
  start_chrome_debug sample_env None false stale_session
  = (Return (Text (already_running_report [worker_target; page_target])),
     advanced stale_session 1 [CdpList]).
Proof.
  apply (start_when_already_running sample_env stale_session None false
           [worker_target; page_target] [Some [worker_target; page_target]]).
  - reflexivity.
  - discriminate.
Defined.

Lemma start_times_out_and_cleans_up_witness :
  fst (start_chrome_debug sample_env None true
         (mkState None JsMap.empty None [None; Some []] 0 []))
  = Return (Text startup_timeout_report).
Proof.
  rewrite (start_times_out_and_cleans_up sample_env _ None true 4242).
  - reflexivity.
  - reflexivity.
  - reflexivity.
  - reflexivity.
  - intros i Hi. do 3 (destruct i as [| i]; [reflexivity|]). reflexivity.
Defined.

Section ConnectionProperties.

Variable env : Env.
Variable RegExp_i : string -> option (string -> bool).

(** C2 fails for [query-network-traffic]: when [cdpClient] is set, the handler
    makes the reachability listing and nothing else, and leaves [cdpClient] as
    it is, open socket or not.  No close, no new connection. *)
Theorem query_keeps_client_whatever_its_socket :
  forall (s : State) (c : CdpClient) (urlFilter m : option string)
         (statusCode : option Z) (limit : Q),
    cdpClient s = Some c ->
    snd (query_network_traffic env RegExp_i urlFilter m statusCode limit s)
    = advanced s 1 [CdpList]
    /\ cdpClient (advanced s 1 [CdpList]) = Some c.
Proof.
  intros s c urlFilter m statusCode limit Hc. split; [|exact Hc].
  unfold query_network_traffic, try_catch, bind at 1.
  unfold isChromeAccessible, try_catch, bind at 1, CDP_List.
  destruct (endpoint s) as [| [[| t ts] |] rest] eqn:He; cbn -[query];
    try (unfold advanced; rewrite He; reflexivity).
  unfold bind, query_connect, bind, get_state. cbn -[query]. rewrite Hc.
  cbn -[query].
  destruct (query RegExp_i (networkRequests s) urlFilter m statusCode limit)
    as [filteredRequests |];
    [destruct (formatMarkdown_throws filteredRequests)|];
    cbn; unfold advanced; rewrite He, ?Hc; reflexivity.
Qed.

(** X30.  [open-url] replaces a stale client: a client whose socket is not open
    is closed, whether or not the close succeeds, and replaced by a client
    opened against the page target (else the first target) of the listing
    just fetched; the navigation goes to the new client. *)
Lemma open_url_replaces_stale_client_always :
  forall (s : State) (c : CdpClient) (to : string)
         (probe targets : list Target) (t : Target)
         (rest : list (option (list Target))),
    (forall e, (forall id, e <> CdpClose id) -> rejects env e = None) ->
    cdpClient s = Some c ->
    socket_not_open c = true ->
    endpoint s = Some probe :: Some targets :: rest ->
    probe <> [] ->
    pageTarget targets = Some t ->
    open_url_navigate env to s
    = (Return None,
       {| chromeProcess := chromeProcess s;
          networkRequests := networkRequests s;
          cdpClient := Some (mkClient (next_client s) (webSocketDebuggerUrl t) (Some 1));
          endpoint := rest;
          next_client := S (next_client s);
          trace := trace s
                   ++ [ CdpList; CdpList; CdpClose (client_id c);
                        CdpConnect (webSocketDebuggerUrl t);
                        PageEnable (next_client s); NetworkEnable (next_client s);
                        Subscribe (next_client s) "Network.requestWillBeSent";
                        Subscribe (next_client s) "Network.responseReceived";
                        Subscribe (next_client s) "Network.requestWillBeSent";
                        Subscribe (next_client s) "Network.responseReceived";
                        PageNavigate (next_client s) to ] |}).
Proof.
  intros s c to probe targets t rest Hrej Hc Hstale He Hprobe Ht.
  destruct s as [cp nr cl ep nc tr]. cbn [cdpClient endpoint] in Hc, He. subst cl ep.
  destruct probe as [| p0 probe]; [congruence|].
  unfold open_url_navigate, try_catch, isChromeAccessible, try_catch, bind, CDP_List,
    open_url_connect, bind, get_state, CDP_connect, perform, bind, log,
    set_cdpClient, subscribe_persistent, bind, log.
  cbn -[pageTarget]. rewrite Ht. cbn -[pageTarget]. rewrite Hstale.
  destruct (rejects env (CdpClose (client_id c))); cbn;
    repeat (rewrite Hrej by discriminate; cbn);
    unfold ret; rewrite <- !app_assoc; reflexivity.
Qed.

End ConnectionProperties.

Lemma query_keeps_client_whatever_its_socket_witness :
  socket_not_open stale_client = true
  /\ cdpClient
       (snd (query_network_traffic sample_env RegExp.make_i None None None 50
               stale_session))
     = Some stale_client
  /\ trace
       (snd (query_network_traffic sample_env RegExp.make_i None None None 50
               stale_session))
     = [CdpList].
Proof.
  destruct (query_keeps_client_whatever_its_socket sample_env RegExp.make_i
              stale_session stale_client None None None 50 eq_refl) as [Hs Hc].
  rewrite Hs. repeat split.
Defined.

(** The sibling path: on the same session [open-url] closes the stale client
    and navigates on a fresh one, opened against the page target. *)
Example open_url_replaces_stale_client :
  open_url_navigate sample_env "http://a/" stale_session
  = (Return None,
     {| chromeProcess := None;
        networkRequests := networkRequests stale_session;
        cdpClient := Some (mkClient 1 (webSocketDebuggerUrl page_target) (Some 1));
        endpoint := [];
        next_client := 2;
        trace := [ CdpList; CdpList; CdpClose 0;
                   CdpConnect (webSocketDebuggerUrl page_target);
                   PageEnable 1; NetworkEnable 1;
                   Subscribe 1 "Network.requestWillBeSent";
                   Subscribe 1 "Network.responseReceived";
                   Subscribe 1 "Network.requestWillBeSent";
                   Subscribe 1 "Network.responseReceived";
                   PageNavigate 1 "http://a/" ] |}).
Proof. reflexivity. Qed.

(** [get-network-details] sends its protocol calls on the stale client too. *)
Example details_use_stale_client :
  trace (snd (get_network_details sample_env "r1" false stale_session))
  = [CdpList; GetResponseBody 0 "r1"].
Proof. reflexivity. Qed.

(** The text of the report does not depend on the error marker: a failed
    body fetch renders like an empty body. *)
Lemma formatDetails_drops_error (includeHeaders : bool) (rid : string)
    (u m : option string) (h : option Headers) (pd : option string)
    (r : option Response) (msg : string) :
  formatDetails includeHeaders (mkDetails rid u m h pd r (BodyError msg))
  = formatDetails includeHeaders (mkDetails rid u m h pd r (Body EmptyString false)).
Proof. reflexivity. Qed.


(** C9 fails on the marker.  With both fetches rejecting, the handler still
    returns the report (the operation as a whole does not fail, and the post
    data is left out silently), but the text of the report carries no trace of
    the marker [Could not retrieve response body]: [formatDetails] reads
    [responseBody.body] only. *)
Theorem body_failure_marker_is_not_rendered :
  response_body sample_env "r1" = None
  /\ request_post_data sample_env "r1" = None
  /\ get_network_details sample_env "r1" true details_session
     = (Return (Text ("## POST http://a/submit" ++ nl ++ nl
                      ++ "Status: 201" ++ nl ++ nl
                      ++ "### Request Headers:" ++ nl
                      ++ "Accept: */*" ++ nl ++ nl)),
        advanced details_session 1
          [CdpList; GetResponseBody 0 "r1"; GetRequestPostData 0 "r1"])
  /\ (forall text,
        fst (get_network_details sample_env "r1" true details_session)
        = Return (Text text) ->
        Js.includes text body_error_marker = false).
Proof.
  repeat split.
  intros text H. vm_compute in H. injection H as <-. reflexivity.
Qed.

(** ** Properties of the settle wait *)

Lemma run_callbacks_app (cbs cbs' : list Callback) (st : PageLoad) :
  run_callbacks (cbs ++ cbs') st = run_callbacks cbs' (run_callbacks cbs st).
Proof. unfold run_callbacks. apply fold_left_app. Qed.

Lemma first_callbacks_S (loop : nat -> Callback) (n : nat) :
  first_callbacks loop (S n) = (first_callbacks loop n ++ [loop n])%list.
Proof. unfold first_callbacks. rewrite seq_S, map_app. reflexivity. Qed.

Lemma first_callbacks_add (loop : nat -> Callback) (n k : nat) :
  first_callbacks loop (n + k)
  = (first_callbacks loop n ++ map loop (seq n k))%list.
Proof. unfold first_callbacks. rewrite seq_app, map_app. reflexivity. Qed.

(** [lastNetworkActivity] is the clock reading of the most recent event. *)
Lemma lastNetworkActivity_most_recent (cbs : list Callback) :
  forall st : PageLoad,
    lastNetworkActivity (run_callbacks cbs st)
    = most_recent_activity (lastNetworkActivity st) cbs.
Proof.
  induction cbs as [| cb cbs IH]; intros st; [reflexivity|].
  change (run_callbacks (cb :: cbs) st) with (run_callbacks cbs (run_callback st cb)).
  rewrite IH. destruct cb as [now e | now]; simpl; [reflexivity|].
  destruct (settled st); [reflexivity|].
  destruct (now - lastNetworkActivity st >=? 1000); reflexivity.
Qed.

(** Once resolved, the wait stays resolved, at the same reading. *)
Lemma settled_stable (cbs : list Callback) :
  forall (st : PageLoad) (T : Z),
    settled st = Some T -> settled (run_callbacks cbs st) = Some T.
Proof.
  induction cbs as [| cb cbs IH]; intros st T H; [exact H|].
  change (run_callbacks (cb :: cbs) st) with (run_callbacks cbs (run_callback st cb)).
  apply IH. destruct cb; simpl; [exact H|]. now rewrite H.
Qed.

Lemma tick_after_quiet (st : PageLoad) (T : Z) :
  settled st = None ->
  lastNetworkActivity st + 1000 <= T ->
  settled (run_callback st (IntervalTick T)) = Some T.
Proof.
  intros Hs Hq. simpl. rewrite Hs.
  destruct (T - lastNetworkActivity st >=? 1000) eqn:E; [reflexivity|].
  rewrite Z.geb_leb in E. apply Z.leb_gt in E. lia.
Qed.

(** Where the wait resolved: at an interval tick that found a second of
    quiet, every earlier tick having found less. *)
Lemma settled_at_quiet_tick (cbs : list Callback) :
  forall (start T : Z),
    settled (run_callbacks cbs (page_load_start start)) = Some T ->
    exists before after,
      cbs = (before ++ IntervalTick T :: after)%list
      /\ settled (run_callbacks before (page_load_start start)) = None
      /\ most_recent_activity start before + 1000 <= T.
Proof.
  induction cbs as [| cb cbs IH] using rev_ind; intros start T H.
  - discriminate.
  - rewrite run_callbacks_app in H.
    destruct (settled (run_callbacks cbs (page_load_start start))) as [T' |] eqn:Hs.
    + rewrite (settled_stable [cb] _ T' Hs) in H. injection H as <-.
      destruct (IH start T' Hs) as (before & after & -> & Hb & Hq).
      exists before, (after ++ [cb])%list. rewrite <- app_assoc. auto.
    + exists cbs, []. destruct cb as [now e | now]; simpl in H.
      * congruence.
      * rewrite Hs in H.
        destruct (now - lastNetworkActivity (run_callbacks cbs (page_load_start start))
                  >=? 1000) eqn:E; [| congruence].
        simpl in H. injection H as <-.
        rewrite lastNetworkActivity_most_recent in E. simpl in E.
        rewrite Z.geb_leb in E. apply Z.leb_le in E.
        repeat split; [assumption | lia].
Qed.

(** Without network events: after [n] ticks of the ideal timer the wait has
    resolved, between 1000 ms after the start and the [n]-th tick, or else
    even the [n]-th tick came before 1000 ms. *)
Lemma idle_page_progress (start delay : Z) (n : nat) :
  let st := run_callbacks (first_callbacks (idle_page start delay) n)
                          (page_load_start start) in
  lastNetworkActivity st = start
  /\ match settled st with
     | Some T => start + 1000 <= T <= start + delay + 100 * Z.of_nat n
     | None => (0 < n)%nat -> delay + 100 * Z.of_nat n < 1000
     end.
Proof.
  induction n as [| n [IHl IHs]]; [split; [reflexivity | cbn; lia]|].
  cbv zeta. rewrite first_callbacks_S, run_callbacks_app.
  set (st := run_callbacks (first_callbacks (idle_page start delay) n)
                           (page_load_start start)) in *.
  change (run_callbacks [?cb] ?s) with (run_callback s cb).
  unfold idle_page, run_callback.
  destruct (settled st) as [T |] eqn:Hs.
  - rewrite Hs. split; [exact IHl | lia].
  - rewrite IHl.
    destruct (start + delay + 100 * (Z.of_nat n + 1) - start >=? 1000) eqn:E;
      cbn [settled lastNetworkActivity]; rewrite ?Hs;
      rewrite Z.geb_leb in E;
      [apply Z.leb_le in E | apply Z.leb_gt in E]; split; try assumption; lia.
Qed.

Lemma idle_page_settles (start delay : Z) (n : nat) :
  0 <= delay -> (10 <= n)%nat ->
  exists T,
    settled (run_callbacks (first_callbacks (idle_page start delay) n)
                           (page_load_start start)) = Some T
    /\ start + 1000 <= T <= start + delay + 1000.
Proof.
  intros Hd Hn.
  destruct (idle_page_progress start delay 10) as [_ H10].
  destruct (settled (run_callbacks (first_callbacks (idle_page start delay) 10)
                                   (page_load_start start))) as [T |] eqn:Hs.
  - exists T. split; [|lia].
    replace n with (10 + (n - 10))%nat by lia.
    rewrite first_callbacks_add, run_callbacks_app.
    apply settled_stable, Hs.
  - exfalso. assert (delay + 100 * Z.of_nat 10 < 1000) by (apply H10; lia). lia.
Qed.

(** C3, as amended.  (1) When the wait has resolved, it did so at an interval
    tick whose clock reading is at least 1000 ms after the reading of the
    most recent network event handled before it (after the start of the
    wait, when there was none).  (2) It resolves at the first tick that
    finds 1000 ms without an event, and stays resolved.  (3) With no event
    at all and the timer firing every 100 ms once the navigation call has
    returned, that happens within the first ten ticks. *)
Theorem settle_wait_resolves_after_quiet_second :
  forall (start delay : Z) (before after : list Callback) (T : Z) (n : nat),
    (forall cbs T',
        settled (run_callbacks cbs (page_load_start start)) = Some T' ->
        exists b a,
          cbs = (b ++ IntervalTick T' :: a)%list
          /\ settled (run_callbacks b (page_load_start start)) = None
          /\ most_recent_activity start b + 1000 <= T')
    /\ (settled (run_callbacks before (page_load_start start)) = None ->
        most_recent_activity start before + 1000 <= T ->
        settled (run_callbacks (before ++ IntervalTick T :: after) (page_load_start start))
        = Some T)
    /\ (0 <= delay -> (10 <= n)%nat ->
        exists T',
          settled (run_callbacks (first_callbacks (idle_page start delay) n)
                                 (page_load_start start)) = Some T'
          /\ start + 1000 <= T' <= start + delay + 1000).
Proof.
  intros start delay before after T n. split; [|split].
  - intros cbs T'. apply settled_at_quiet_tick.
  - intros Hs Hq.
    rewrite run_callbacks_app.
    change (run_callbacks (IntervalTick T :: after) ?st)
      with (run_callbacks after (run_callback st (IntervalTick T))).
    apply settled_stable, tick_after_quiet; [exact Hs|].
    rewrite lastNetworkActivity_most_recent. exact Hq.
  - apply idle_page_settles.
Qed.

Lemma settle_wait_resolves_after_quiet_second_witness :
  settled (run_callbacks
             ([NetworkActivity 40 (RequestWillBeSent "r1" sample_get 1);
               IntervalTick 100] ++ IntervalTick 1040 :: [IntervalTick 1140])
             (page_load_start 0)) = Some 1040
  /\ (exists T',
        settled (run_callbacks (first_callbacks (idle_page 0 250) 12) (page_load_start 0))
        = Some T'
        /\ 0 + 1000 <= T' <= 0 + 250 + 1000).
Proof.
  pose proof (settle_wait_resolves_after_quiet_second 0 250
                [NetworkActivity 40 (RequestWillBeSent "r1" sample_get 1);
                 IntervalTick 100]
                [IntervalTick 1140] 1040 12) as (_ & Hlive & Hidle).
  split.
  - apply Hlive; [reflexivity | simpl; lia].
  - apply Hidle; lia.
Defined.

Lemma polling_page_invariant (n : nat) :
  let st := run_callbacks (first_callbacks polling_page n) (page_load_start 0) in
  settled st = None
  /\ 50 * Z.of_nat n <= lastNetworkActivity st + (if Nat.even n then 100 else 50).
Proof.
  induction n as [| n [IHs IHl]]; [simpl; split; [reflexivity | lia]|].
  cbv zeta. rewrite first_callbacks_S, run_callbacks_app.
  set (st := run_callbacks (first_callbacks polling_page n) (page_load_start 0)) in *.
  rewrite Nat.even_succ, <- Nat.negb_even.
  unfold polling_page. destruct (Nat.even n); simpl negb; cbv iota.
  - change (run_callbacks [?cb] ?s) with (run_callback s cb).
    unfold run_callback. cbn [settled lastNetworkActivity].
    split; [exact IHs | lia].
  - change (run_callbacks [?cb] ?s) with (run_callback s cb).
    unfold run_callback. rewrite IHs.
    destruct (50 * Z.of_nat n - lastNetworkActivity st >=? 1000) eqn:E.
    + rewrite Z.geb_leb in E. apply Z.leb_le in E. lia.
    + split; [exact IHs | lia].
Qed.

(** C3, as stated, fails: on a page that sends a request every 100 ms the
    interval keeps firing and the wait never resolves. *)
Lemma settle_wait_starves_under_traffic :
  (forall k, is_tick (polling_page (2 * k + 1)) = true)
  /\ ~ (exists n,
          settled (run_callbacks (first_callbacks polling_page n) (page_load_start 0))
          <> None).
Proof.
  split.
  - intros k. unfold polling_page.
    replace (2 * k + 1)%nat with (S (2 * k)) by lia.
    rewrite Nat.even_succ, <- Nat.negb_even, Nat.even_mul. reflexivity.
  - intros [n Hn]. apply Hn. apply polling_page_invariant.
Qed.

(** ** Further properties of the record store *)

Lemma keys_set (k : string) (v : NetworkRecord) (m : JsMap.t) :
  keys (JsMap.set k v m)
  = if existsb (String.eqb k) (keys m) then keys m else (keys m ++ [k])%list.
Proof.
  unfold keys. induction m as [| [k' v'] m IH]; simpl; [reflexivity|].
  destruct (String.eqb k k') eqn:E; simpl.
  - apply String.eqb_eq in E. now subst.
  - rewrite IH. destruct (existsb (String.eqb k) (map fst m)); reflexivity.
Qed.

Lemma existsb_eqb_In (k : string) (l : list string) :
  existsb (String.eqb k) l = true <-> In k l.
Proof.
  rewrite existsb_exists. split.
  - intros (x & Hx & E). apply String.eqb_eq in E. now subst.
  - intros H. exists k. split; [exact H | apply String.eqb_refl].
Qed.

Lemma get_In_keys (k : string) (m : JsMap.t) :
  JsMap.get k m <> None <-> In k (keys m).
Proof.
  induction m as [| [k' v'] m IH]; simpl.
  - split; [congruence | tauto].
  - destruct (String.eqb k k') eqn:E.
    + apply String.eqb_eq in E. subst. split; [auto | discriminate].
    + rewrite IH. split; [auto|]. intros [-> | H]; [|exact H].
      rewrite String.eqb_refl in E. discriminate.
Qed.

Lemma keys_dispatch (e : NetworkEvent) (m : JsMap.t) :
  keys (dispatch e m)
  = if existsb (String.eqb (event_id e)) (keys m) then keys m
    else (keys m ++ [event_id e])%list.
Proof. destruct e; apply keys_set. Qed.

Lemma ingest_cons (e : NetworkEvent) (es : list NetworkEvent) (m : JsMap.t) :
  ingest (e :: es) m = ingest es (dispatch e m).
Proof. reflexivity. Qed.

Lemma keys_ingest_extend (es : list NetworkEvent) :
  forall m : JsMap.t,
    exists added,
      keys (ingest es m) = (keys m ++ added)%list
      /\ (forall k, In k added <-> In k (map event_id es) /\ ~ In k (keys m))
      /\ NoDup added.
Proof.
  induction es as [| e es IH]; intros m.
  - exists []. rewrite app_nil_r. repeat split; try tauto; constructor.
  - rewrite ingest_cons. destruct (IH (dispatch e m)) as (added & Hk & Hin & Hnd).
    rewrite keys_dispatch in Hk, Hin.
    destruct (existsb (String.eqb (event_id e)) (keys m)) eqn:E.
    + apply existsb_eqb_In in E. exists added. split; [exact Hk|]. split; [|exact Hnd].
      intros k. rewrite Hin. simpl. split.
      * intros [H1 H2]. auto.
      * intros [[<- | H1] H2]; [contradiction | auto].
    + assert (Hnot : ~ In (event_id e) (keys m)).
      { intros H. apply existsb_eqb_In in H. congruence. }
      exists (event_id e :: added). rewrite Hk, <- app_assoc. split; [reflexivity|].
      split.
      * intros k. simpl. rewrite Hin, in_app_iff. simpl. split.
        -- intros [<- | [H1 H2]]; [auto | split; [auto | tauto]].
        -- intros [[<- | H1] H2]; [auto|].
           destruct (string_dec (event_id e) k) as [-> | Hne]; [auto|].
           right. split; [exact H1 | tauto].
      * constructor; [|exact Hnd]. rewrite Hin, in_app_iff. simpl. tauto.
Qed.

(** X1.  The store holds a record for an id exactly when an event carrying that
    id has been ingested, and it holds one record per id. *)
Theorem store_holds_the_ids_seen :
  forall (es : list NetworkEvent) (k : string),
    (JsMap.get k (ingest es JsMap.empty) <> None <-> In k (map event_id es))
    /\ NoDup (keys (ingest es JsMap.empty)).
Proof.
  intros es k. destruct (keys_ingest_extend es JsMap.empty) as (added & Hk & Hin & Hnd).
  simpl in Hk. split.
  - rewrite get_In_keys, Hk, Hin. simpl. tauto.
  - now rewrite Hk.
Qed.

(** X2.  Ingesting never removes or moves a record: the ids already in the store
    keep their places in the enumeration order and new ids are appended, each
    once. *)
Theorem ingest_appends_new_ids :
  forall (es : list NetworkEvent) (m : JsMap.t),
    exists added,
      keys (ingest es m) = (keys m ++ added)%list
      /\ NoDup added
      /\ (forall k, In k added <-> In k (map event_id es) /\ JsMap.get k m = None).
Proof.
  intros es m. destruct (keys_ingest_extend es m) as (added & Hk & Hin & Hnd).
  exists added. split; [exact Hk|]. split; [exact Hnd|].
  intros k. rewrite Hin, <- get_In_keys. split.
  - intros [H1 H2]. split; [exact H1|].
    destruct (JsMap.get k m); [exfalso; apply H2; discriminate | reflexivity].
  - intros [H1 H2]. split; [exact H1 | congruence].
Qed.

Lemma dispatch_other (e : NetworkEvent) (k : string) (m : JsMap.t) :
  event_id e <> k -> JsMap.get k (dispatch e m) = JsMap.get k m.
Proof.
  intros H. destruct e; simpl in *; unfold requestWillBeSent, responseReceived;
    now apply JsMap_get_set_other.
Qed.

(** X3.  Events for other ids leave the record of an id as it is. *)
Theorem ingest_leaves_other_records :
  forall (es : list NetworkEvent) (m : JsMap.t) (rid : string),
    (forall e, In e es -> event_id e <> rid) ->
    JsMap.get rid (ingest es m) = JsMap.get rid m.
Proof.
  induction es as [| e es IH]; intros m rid H; [reflexivity|].
  rewrite ingest_cons, IH.
  - apply dispatch_other, H. now left.
  - intros e' He'. apply H. now right.
Qed.

Lemma ingest_leaves_other_records_witness :
  JsMap.get "r1"
    (ingest [RequestWillBeSent "r2" sample_post 5; ResponseReceived "r3" (sample_response 200) 6]
            three_records)
  = JsMap.get "r1" three_records.
Proof.
  apply (ingest_leaves_other_records
           [RequestWillBeSent "r2" sample_post 5; ResponseReceived "r3" (sample_response 200) 6]
           three_records "r1").
  intros e [<- | [<- | []]]; discriminate.
Defined.

Lemma get_In (k : string) (r : NetworkRecord) (m : JsMap.t) :
  JsMap.get k m = Some r -> In (k, r) m.
Proof.
  induction m as [| [k' v'] m IH]; simpl; [discriminate|].
  destruct (String.eqb k k') eqn:E.
  - apply String.eqb_eq in E. intros [= ->]. subst. now left.
  - auto.
Qed.

Lemma set_Forall (P : string * NetworkRecord -> Prop) (k : string)
    (v : NetworkRecord) (m : JsMap.t) :
  P (k, v) -> Forall P m -> Forall P (JsMap.set k v m).
Proof.
  intros Hkv Hm. induction Hm as [| [k' v'] m Hh Hm IH]; simpl.
  - repeat constructor. exact Hkv.
  - destruct (String.eqb k k'); constructor; assumption.
Qed.

Lemma ingest_keeps_ids (es : list NetworkEvent) :
  forall m : JsMap.t,
    Forall (fun kv => requestId (snd kv) = Some (fst kv)) m ->
    Forall (fun kv => requestId (snd kv) = Some (fst kv)) (ingest es m).
Proof.
  induction es as [| e es IH]; intros m Hm; [exact Hm|].
  rewrite ingest_cons. apply IH.
  destruct e; simpl; unfold requestWillBeSent, responseReceived;
    apply set_Forall; auto.
Qed.

(** X4.  Every record of a store filled by the handlers carries, as its
    [requestId], the key it is stored under. *)
Theorem stored_record_carries_its_key :
  forall (es : list NetworkEvent) (k : string) (r : NetworkRecord),
    JsMap.get k (ingest es JsMap.empty) = Some r ->
    requestId r = Some k.
Proof.
  intros es k r Hget. apply get_In in Hget.
  pose proof (ingest_keeps_ids es JsMap.empty (Forall_nil _)) as H.
  apply (proj1 (Forall_forall _ _) H (k, r) Hget).
Qed.

Lemma stored_record_carries_its_key_witness :
  requestId (spread_response empty_object "r2" (sample_response 404) 5) = Some "r2".
Proof.
  apply (stored_record_carries_its_key [ResponseReceived "r2" (sample_response 404) 5] "r2").
  reflexivity.
Defined.

(** ** Further properties of the query pipeline *)

Lemma filter_filter {A} (f g : A -> bool) (l : list A) :
  filter g (filter f l) = filter (fun x => f x && g x) l.
Proof.
  induction l as [| x l IH]; simpl; [reflexivity|].
  destruct (f x); simpl; [destruct (g x)|]; now rewrite IH.
Qed.

Lemma filter_true {A} (l : list A) : filter (fun _ => true) l = l.
Proof. induction l as [| x l IH]; simpl; [reflexivity | now rewrite IH]. Qed.

(** The pipeline in one piece: filter by the conjunction of the filters in
    force, sort, slice. *)
Lemma query_normal_form (RegExp_i : string -> option (string -> bool))
    (store : JsMap.t) (urlFilter m : option string) (statusCode : option Z)
    (limit : Q) (result : list NetworkRecord) :
  query RegExp_i store urlFilter m statusCode limit = Some result ->
  result
  = Js.slice0
      (Js.sort by_timestamp_desc
         (filter (selected (url_test RegExp_i urlFilter) m statusCode)
                 (JsMap.values store)))
      (Js.ToIntegerOrInfinity limit).
Proof.
  unfold query, filter_url, url_test, sort_and_limit, filter_status, filter_method, selected.
  destruct (Js.truthy_string urlFilter).
  - destruct (RegExp_i (replace_star (Js.template urlFilter))) as [t |]; [|discriminate].
    intros [= <-]. do 2 f_equal.
    destruct (Js.truthy_string m), statusCode as [code |];
      try destruct (code =? 0); simpl;
      rewrite ?filter_filter; apply filter_ext; intros r; btauto.
  - intros [= <-]. do 2 f_equal.
    destruct (Js.truthy_string m), statusCode as [code |];
      try destruct (code =? 0); simpl;
      rewrite ?filter_filter; try (symmetry; apply filter_true);
      apply filter_ext; intros r; btauto.
Qed.

Lemma sort_insert_permutation {A} (cmp : A -> A -> Q) (x : A) (l : list A) :
  Permutation (Js.sort_insert cmp x l) (x :: l).
Proof.
  induction l as [| y l IH]; simpl; [reflexivity|].
  destruct (Qle_bool (cmp x y) 0); [reflexivity|].
  rewrite IH. apply perm_swap.
Qed.

Lemma sort_permutation {A} (cmp : A -> A -> Q) (l : list A) :
  Permutation (Js.sort cmp l) l.
Proof.
  induction l as [| x l IH]; simpl; [reflexivity|].
  rewrite sort_insert_permutation. now constructor.
Qed.

(** X5.  Every record the query returns passes every filter in force; under a
    status filter it has a response, with that status, so pending records
    are left out. *)
Theorem query_returns_selected_records :
  forall (RegExp_i : string -> option (string -> bool)) (store : JsMap.t)
         (urlFilter m : option string) (statusCode : option Z) (limit : Q)
         (result : list NetworkRecord) (r : NetworkRecord),
    query RegExp_i store urlFilter m statusCode limit = Some result ->
    In r result ->
    selected (url_test RegExp_i urlFilter) m statusCode r = true
    /\ (forall code, statusCode = Some code -> code <> 0 ->
        exists resp, response r = Some resp /\ status resp = Some code).
Proof.
  intros RegExp_i store urlFilter m statusCode limit result r Hq Hr.
  apply query_normal_form in Hq. subst result.
  apply slice0_In, sort_In, filter_In in Hr. destruct Hr as [_ Hsel].
  split; [exact Hsel|].
  intros code -> Hcode. unfold selected in Hsel.
  apply andb_true_iff in Hsel as [_ Hst].
  apply orb_true_iff in Hst as [Hz | Hst]; [apply Z.eqb_eq in Hz; contradiction|].
  unfold status_equals in Hst.
  destruct (response r) as [resp |]; [|discriminate].
  destruct (status resp) as [st |] eqn:Est; [|discriminate].
  apply Z.eqb_eq in Hst. subst. exists resp. split; [reflexivity | exact Est].
Qed.

Lemma query_returns_selected_records_witness :
  exists resp,
    response (spread_response (request_record "r2" sample_get 2) "r2" (sample_response 200) 3)
    = Some resp
    /\ status resp = Some 200.
Proof.
  apply (proj2 (query_returns_selected_records RegExp.make_i
                  (ingest [ RequestWillBeSent "r1" sample_get 1;
                            RequestWillBeSent "r2" sample_get 2;
                            ResponseReceived "r2" (sample_response 200) 3 ] JsMap.empty)
                  None None (Some 200) 50 _ _ eq_refl (or_introl eq_refl))
               200 eq_refl).
  discriminate.
Defined.

(** X6.  With a limit that is not below the size of the store nothing is cut:
    the query returns the selected records, each as often as the store holds
    it. *)
Theorem query_returns_all_selected_records :
  forall (RegExp_i : string -> option (string -> bool)) (store : JsMap.t)
         (urlFilter m : option string) (statusCode : option Z) (limit : Q)
         (result : list NetworkRecord),
    query RegExp_i store urlFilter m statusCode limit = Some result ->
    (inject_Z (Z.of_nat (length store)) <= limit)%Q ->
    Permutation result
      (filter (selected (url_test RegExp_i urlFilter) m statusCode) (JsMap.values store)).
Proof.
  intros RegExp_i store urlFilter m statusCode limit result Hq Hlimit.
  apply query_normal_form in Hq. subst result.
  set (l := filter _ _).
  assert (Hlen : (length (Js.sort by_timestamp_desc l) <= length store)%nat).
  { rewrite (Permutation_length (sort_permutation _ l)). unfold l.
    etransitivity; [apply filter_length_le|]. unfold JsMap.values.
    now rewrite length_map. }
  apply ToIntegerOrInfinity_above in Hlimit; [|lia].
  unfold Js.slice0.
  destruct (Js.ToIntegerOrInfinity limit <? 0) eqn:E; [apply Z.ltb_lt in E; lia|].
  rewrite firstn_all2 by lia. apply sort_permutation.
Qed.

Lemma query_returns_all_selected_records_witness :
  exists result,
    query RegExp.make_i three_records (Some "a/") (Some "get") None 3 = Some result
    /\ Permutation result
         (filter (selected (url_test RegExp.make_i (Some "a/")) (Some "get") None)
                 (JsMap.values three_records)).
Proof.
  eexists. split; [reflexivity|].
  apply (query_returns_all_selected_records RegExp.make_i three_records
           (Some "a/") (Some "get") None 3).
  - reflexivity.
  - unfold Qle. simpl. lia.
Defined.

(** X7.  The number of records returned, for any limit, whole or fractional.
    [slice] truncates the limit towards zero to a whole number [k]; the
    query then returns [k] records, or all the selected records when there
    are fewer; and for a negative [k], all but the last [-k] of them.  So a
    limit of 2.5 returns two records, and a limit of -0.5 none. *)
Theorem query_result_size :
  forall (RegExp_i : string -> option (string -> bool)) (store : JsMap.t)
         (urlFilter m : option string) (statusCode : option Z) (limit : Q)
         (result : list NetworkRecord),
    query RegExp_i store urlFilter m statusCode limit = Some result ->
    let n := Z.of_nat (length (filter (selected (url_test RegExp_i urlFilter) m statusCode)
                                      (JsMap.values store))) in
    let k := Js.ToIntegerOrInfinity limit in
    Z.of_nat (length result) = if k <? 0 then Z.max (n + k) 0 else Z.min k n.
Proof.
  intros RegExp_i store urlFilter m statusCode limit result Hq n k.
  apply query_normal_form in Hq. subst result.
  unfold Js.slice0. rewrite length_firstn.
  rewrite (Permutation_length (sort_permutation _ _)). fold n. fold k.
  destruct (k <? 0) eqn:E; [apply Z.ltb_lt in E | apply Z.ltb_ge in E]; lia.
Qed.

Lemma query_result_size_witness :
  (exists result,
     query RegExp.make_i three_records None None None (5 # 2) = Some result
     /\ Z.of_nat (length result) = 2)
  /\ (exists result,
       query RegExp.make_i three_records None None None (- (1 # 2)) = Some result
       /\ Z.of_nat (length result) = 0)
  /\ (exists result,
       query RegExp.make_i three_records None None None (- (5 # 2)) = Some result
       /\ Z.of_nat (length result) = 1).
Proof.
  repeat split.
  - eexists. split; [reflexivity|].
    apply (query_result_size RegExp.make_i three_records None None None (5 # 2)).
    reflexivity.
  - eexists. split; [reflexivity|].
    apply (query_result_size RegExp.make_i three_records None None None (- (1 # 2))).
    reflexivity.
  - eexists. split; [reflexivity|].
    apply (query_result_size RegExp.make_i three_records None None None (- (5 # 2))).
    reflexivity.
Defined.

Lemma sort_insert_stable (t : Q) (x : NetworkRecord) (l : list NetworkRecord) :
  filter (stamped t) (Js.sort_insert by_timestamp_desc x l)
  = filter (stamped t) (x :: l).
Proof.
  induction l as [| y l IH]; [reflexivity|].
  cbn [Js.sort_insert].
  destruct (Qle_bool (by_timestamp_desc x y) 0) eqn:E; [reflexivity|].
  cbn [filter] in *. rewrite IH.
  destruct (stamped t x) eqn:Ex, (stamped t y) eqn:Ey; try reflexivity.
  exfalso. unfold stamped in *.
  apply Qeq_bool_iff in Ex, Ey.
  assert (Hle : Qle_bool (by_timestamp_desc x y) 0 = true).
  { apply Qle_bool_iff. unfold by_timestamp_desc, effective_timestamp in *.
    rewrite Ex, Ey. lra. }
  congruence.
Qed.

(** X8.  Sorting is stable: records with the same effective timestamp stay in the
    order in which the store enumerates them. *)
Theorem sort_keeps_order_of_ties :
  forall (t : Q) (requests : list NetworkRecord),
    filter (stamped t) (Js.sort by_timestamp_desc requests)
    = filter (stamped t) requests.
Proof.
  intros t requests. induction requests as [| x l IH]; [reflexivity|].
  cbn [Js.sort fold_right]. fold (Js.sort by_timestamp_desc l).
  rewrite sort_insert_stable. cbn [filter]. now rewrite IH.
Qed.

(** ** Further properties of the URL filter *)

Lemma string_app_assoc (a b c : string) : (a ++ b) ++ c = a ++ (b ++ c).
Proof. induction a as [| x a IH]; simpl; [reflexivity | now rewrite IH]. Qed.

Lemma matches_literal_app (f : string) (p : RegExp.pattern) :
  forall s,
    matches (literal_pattern f ++ p)%list s
    <-> exists s1 s2, s = s1 ++ s2 /\ same_ignoring_case f s1 /\ matches p s2.
Proof.
  induction f as [| c f IH]; intros s; simpl.
  - split.
    + intros H. exists EmptyString, s. auto.
    + intros (s1 & s2 & -> & Hs1 & Hp). destruct s1; [exact Hp | contradiction].
  - split.
    + inversion 1 as [| a d q s' Ha Hm | |]; subst.
      apply IH in Hm as (s1 & s2 & -> & Hs1 & Hp).
      exists (String d s1), s2. repeat split; try assumption.
      simpl in Ha. now apply Ascii.eqb_eq.
    + intros (s1 & s2 & -> & Hs1 & Hp).
      destruct s1 as [| d s1]; [contradiction|]. destruct Hs1 as [Hc Hs1].
      simpl. constructor; [simpl; now apply Ascii.eqb_eq|].
      apply IH. eauto.
Qed.

Lemma matches_dot_star (p : RegExp.pattern) (s : string) :
  matches (RegExp.Many RegExp.Dot :: p) s
  <-> exists gap s2, s = gap ++ s2 /\ one_line gap /\ matches p s2.
Proof.
  split.
  - remember (RegExp.Many RegExp.Dot :: p) as q eqn:Eq.
    induction 1 as [| a c q s Ha Hm IH | a q s Hm IH | a c q s Ha Hm IH];
      try discriminate; injection Eq as -> ->.
    + exists EmptyString, s. simpl. auto.
    + destruct (IH eq_refl) as (gap & s2 & -> & Hg & Hp).
      exists (String c gap), s2. simpl in *.
      apply negb_true_iff in Ha. auto.
  - intros (gap & s2 & -> & Hg & Hp).
    induction gap as [| c gap IH]; simpl.
    + now constructor.
    + destruct Hg as [Hc Hg]. apply matches_many_more; [|auto].
      simpl. now rewrite Hc.
Qed.

Lemma parse_wildcard (f1 f2 : string) :
  ordinary f1 = true -> ordinary f2 = true ->
  RegExp.parse (f1 ++ ".*" ++ f2)
  = Some (literal_pattern f1 ++ RegExp.Many RegExp.Dot :: literal_pattern f2)%list.
Proof.
  intros H1 H2. induction f1 as [| c f1 IH].
  - simpl. now rewrite (parse_ordinary f2 H2).
  - pose proof H1 as H1'. simpl in H1'. apply andb_true_iff in H1' as [Hc Hf1].
    change (String c f1 ++ ".*" ++ f2) with (String c (f1 ++ ".*" ++ f2)).
    rewrite (parse_step c _ (RegExp.Chr c)).
    + now rewrite (IH Hf1).
    + unfold RegExp.parse_atom.
      destruct (Ascii.eqb c ".") eqn:E.
      * apply Ascii.eqb_eq in E. subst c. discriminate.
      * apply negb_true_iff in Hc. now rewrite Hc.
    + destruct f1 as [| c' f1']; [reflexivity | now apply (ordinary_head c' f1')].
Qed.

(** *** The URL filter in the handler *)

(** A filter that is not the empty string goes, with its [*] replaced, to
    the constructor, and the records are filtered by the test it returns. *)
Lemma filter_url_truthy (RegExp_i : string -> option (string -> bool))
    (f : string) (requests : list NetworkRecord) :
  f <> EmptyString ->
  filter_url RegExp_i (Some f) requests
  = match RegExp_i (replace_star f) with
    | Some pattern_test =>
        Some (filter (fun req => pattern_test (Js.template (url req))) requests)
    | None => None
    end.
Proof. intros Hf. destruct f; [congruence | reflexivity]. Qed.

Lemma test_literal (f u : string) :
  RegExp.test (literal_pattern f) u = true
  <-> exists pre mid post, u = pre ++ mid ++ post /\ same_ignoring_case f mid.
Proof.
  rewrite test_unanchored. split.
  - intros (pre & mid & post & E & Hm). exists pre, mid, post.
    split; [exact E | now apply matches_literal].
  - intros (pre & mid & post & E & Hm). exists pre, mid, post.
    split; [exact E | now apply matches_literal].
Qed.

Lemma filter_url_ordinary (f : string) (requests : list NetworkRecord) :
  ordinary f = true ->
  filter_url RegExp.make_i (Some f) requests
  = Some (filter (fun req => RegExp.test (literal_pattern f) (Js.template (url req)))
                 requests).
Proof.
  intros Hf. destruct f as [| c f].
  - cbn. f_equal. symmetry. apply filter_all. intros req.
    apply test_at_start. reflexivity.
  - rewrite filter_url_truthy by discriminate. unfold RegExp.make_i.
    now rewrite (replace_star_ordinary _ Hf), (parse_ordinary _ Hf).
Qed.

Lemma test_wildcard (f1 f2 u : string) :
  RegExp.test (literal_pattern f1 ++ RegExp.Many RegExp.Dot :: literal_pattern f2)%list u
  = true
  <-> exists pre m1 gap m2 post,
        u = pre ++ m1 ++ gap ++ m2 ++ post
        /\ same_ignoring_case f1 m1
        /\ one_line gap
        /\ same_ignoring_case f2 m2.
Proof.
  rewrite test_unanchored. split.
  - intros (pre & mid & post & E & Hm).
    apply matches_literal_app in Hm as (m1 & rest & -> & Hm1 & Hrest).
    apply matches_dot_star in Hrest as (gap & m2 & -> & Hgap & Hm2).
    apply matches_literal in Hm2.
    exists pre, m1, gap, m2, post. split; [|auto].
    rewrite E. now rewrite !string_app_assoc.
  - intros (pre & m1 & gap & m2 & post & E & Hm1 & Hgap & Hm2).
    exists pre, (m1 ++ gap ++ m2), post. split.
    + rewrite E. now rewrite !string_app_assoc.
    + apply matches_literal_app. exists m1, (gap ++ m2). split; [reflexivity|].
      split; [exact Hm1|]. apply matches_dot_star.
      exists gap, m2. split; [reflexivity|]. split; [exact Hgap|].
      now apply matches_literal.
Qed.

(** What the query returns has passed the test built from the filter. *)
Lemma query_result_passes_url_test (RegExp_i : string -> option (string -> bool))
    (store : JsMap.t) (f : string) (m : option string) (statusCode : option Z)
    (limit : Q) (result : list NetworkRecord) (req : NetworkRecord) :
  f <> EmptyString ->
  query RegExp_i store (Some f) m statusCode limit = Some result ->
  In req result ->
  exists pattern_test,
    RegExp_i (replace_star f) = Some pattern_test
    /\ pattern_test (Js.template (url req)) = true.
Proof.
  intros Hf Hq Hin. unfold query in Hq. rewrite filter_url_truthy in Hq by exact Hf.
  destruct (RegExp_i (replace_star f)) as [t |]; [|discriminate].
  injection Hq as <-. exists t. split; [reflexivity|].
  apply sort_and_limit_In in Hin. now apply filter_In in Hin.
Qed.

(** With a limit that is not below the size of the store, the query returns
    every record that passes the filters. *)
Lemma query_keeps_passing_record (RegExp_i : string -> option (string -> bool))
    (store : JsMap.t) (f : string) (limit : Q) (pattern_test : string -> bool)
    (req : NetworkRecord) :
  f <> EmptyString ->
  RegExp_i (replace_star f) = Some pattern_test ->
  (inject_Z (Z.of_nat (length store)) <= limit)%Q ->
  In req (JsMap.values store) ->
  pattern_test (Js.template (url req)) = true ->
  exists result,
    query RegExp_i store (Some f) None None limit = Some result
    /\ In req result
    /\ forall r, In r result -> pattern_test (Js.template (url r)) = true.
Proof.
  intros Hf Ht Hlimit Hin Hreq. unfold query.
  rewrite filter_url_truthy by exact Hf. rewrite Ht.
  eexists. split; [reflexivity|]. cbn [filter_status filter_method Js.truthy_string].
  set (l := filter _ _). split.
  - unfold sort_and_limit, Js.slice0.
    assert (Hlen : (length (Js.sort by_timestamp_desc l) <= length store)%nat).
    { rewrite (Permutation_length (sort_permutation _ l)). unfold l.
      etransitivity; [apply filter_length_le|]. unfold JsMap.values.
      now rewrite length_map. }
    apply ToIntegerOrInfinity_above in Hlimit; [|lia].
    destruct (Js.ToIntegerOrInfinity limit <? 0) eqn:E; [apply Z.ltb_lt in E; lia|].
    rewrite firstn_all2 by lia.
    apply (Permutation_in _ (Permutation_sym (sort_permutation _ l))).
    unfold l. apply filter_In. now split.
  - intros r Hr. unfold sort_and_limit in Hr.
    apply slice0_In, sort_In in Hr. unfold l in Hr. now apply filter_In in Hr.
Qed.

(** *** The URL filter at the tool's interface *)

(** A listing returned by [query-network-traffic] is the result of the query
    over the store, and none of its records lacks a url. *)
Lemma query_network_traffic_listing (env : Env)
    (RegExp_i : string -> option (string -> bool)) (urlFilter m : option string)
    (statusCode : option Z) (limit : Q) (s : State) (result : list NetworkRecord) :
  fst (query_network_traffic env RegExp_i urlFilter m statusCode limit s)
  = Return (Markdown result) ->
  query RegExp_i (networkRequests s) urlFilter m statusCode limit = Some result
  /\ formatMarkdown_throws result = false.
Proof.
  destruct s as [cp nr cl ep nc tr].
  unfold query_network_traffic, try_catch, isChromeAccessible, try_catch, bind,
    CDP_List, query_connect, bind, get_state, CDP_connect, perform, bind, log,
    set_cdpClient, subscribe_persistent, bind, log, ret, throw.
  destruct ep as [| [[| t ts] |] rest];
    cbn -[query pageTarget formatMarkdown_throws]; try discriminate.
  destruct cl as [c |]; cbn -[query pageTarget formatMarkdown_throws].
  2: destruct rest as [| [targets |] rest'];
       cbn -[query pageTarget formatMarkdown_throws]; try discriminate;
     destruct (pageTarget targets) as [t' |];
       cbn -[query pageTarget formatMarkdown_throws]; try discriminate;
     destruct (rejects env (CdpConnect (webSocketDebuggerUrl t')));
       cbn -[query pageTarget formatMarkdown_throws]; try discriminate;
     destruct (rejects env (NetworkEnable nc));
       cbn -[query pageTarget formatMarkdown_throws]; try discriminate.
  all: destruct (query RegExp_i nr urlFilter m statusCode limit) as [fr |];
    [destruct (formatMarkdown_throws fr) eqn:E|]; cbn; intros H;
    try discriminate; injection H as <-; now split.
Qed.

(** With a client at hand and the endpoint reachable, the answer is the
    listing of the query's result. *)
Lemma query_network_traffic_connected (env : Env)
    (RegExp_i : string -> option (string -> bool)) (urlFilter m : option string)
    (statusCode : option Z) (limit : Q) (s : State) (c : CdpClient)
    (t : Target) (ts : list Target) (rest : list (option (list Target)))
    (result : list NetworkRecord) :
  cdpClient s = Some c ->
  endpoint s = Some (t :: ts) :: rest ->
  query RegExp_i (networkRequests s) urlFilter m statusCode limit = Some result ->
  formatMarkdown_throws result = false ->
  fst (query_network_traffic env RegExp_i urlFilter m statusCode limit s)
  = Return (Markdown result).
Proof.
  destruct s as [cp nr cl ep nc tr]. cbn [cdpClient endpoint networkRequests].
  intros -> -> Hq Hf.
  unfold query_network_traffic, try_catch, isChromeAccessible, try_catch, bind,
    CDP_List, query_connect, bind, get_state, ret, throw.
  cbn -[query formatMarkdown_throws]. rewrite Hq, Hf. reflexivity.
Qed.

Lemma formatMarkdown_throws_false (requests : list NetworkRecord) :
  (forall r, In r requests -> url r <> None) ->
  formatMarkdown_throws requests = false.
Proof.
  unfold formatMarkdown_throws. induction requests as [| r l IH]; intros H.
  - reflexivity.
  - cbn [existsb]. rewrite IH by (intros r' Hr'; apply H; now right).
    specialize (H r (or_introl eq_refl)).
    destruct (url r); [reflexivity | congruence].
Qed.

(** C5.  Url filtering in the handler, with the expression built from the
    filter after each [*] has become [.*].  The filter ["*"] keeps every
    record, whatever its url (a record without url included), so the query
    is the query without url filter.  The filter ["foo"] keeps the records
    whose url is ["https://FOO.com/x"].  In general a filter of ordinary
    characters keeps exactly the records whose url contains it somewhere,
    letter case apart, and drops the others.  At the tool's interface:
    every record [query-network-traffic] lists under such a filter has a url
    that contains it, letter case apart; and, with a client at hand, the
    endpoint reachable and a limit not below the size of the store, a record
    with url ["https://FOO.com/x"] is listed under the filter ["foo"]. *)
Theorem url_filter_wildcard_and_case :
  (forall requests, filter_url RegExp.make_i (Some "*") requests = Some requests)
  /\ (forall store m statusCode limit,
        query RegExp.make_i store (Some "*") m statusCode limit
        = query RegExp.make_i store None m statusCode limit)
  /\ (forall requests,
        exists result,
          filter_url RegExp.make_i (Some "foo") requests = Some result
          /\ forall req,
               In req requests -> url req = Some "https://FOO.com/x" -> In req result)
  /\ (forall f requests,
        ordinary f = true ->
        exists pattern_test,
          filter_url RegExp.make_i (Some f) requests
          = Some (filter (fun req => pattern_test (Js.template (url req))) requests)
          /\ forall u,
               pattern_test u = true
               <-> exists pre mid post,
                     u = pre ++ mid ++ post /\ same_ignoring_case f mid)
  /\ (forall env s f m statusCode limit result req,
        ordinary f = true ->
        fst (query_network_traffic env RegExp.make_i (Some f) m statusCode limit s)
        = Return (Markdown result) ->
        In req result ->
        exists pre mid post,
          Js.template (url req) = pre ++ mid ++ post /\ same_ignoring_case f mid)
  /\ (forall env s c t ts rest limit req,
        cdpClient s = Some c ->
        endpoint s = Some (t :: ts) :: rest ->
        (inject_Z (Z.of_nat (length (networkRequests s))) <= limit)%Q ->
        In req (JsMap.values (networkRequests s)) ->
        url req = Some "https://FOO.com/x" ->
        exists result,
          fst (query_network_traffic env RegExp.make_i (Some "foo") None None limit s)
          = Return (Markdown result)
          /\ In req result).
Proof.
  assert (Hall : forall requests,
            filter_url RegExp.make_i (Some "*") requests = Some requests).
  { intros requests. unfold filter_url. simpl. f_equal. apply filter_all.
    intros req. apply test_at_start, dot_star_matches. }
  split; [exact Hall|]. split; [|split; [|split; [|split]]].
  - intros store m statusCode limit. unfold query. now rewrite Hall.
  - intros requests. rewrite filter_url_ordinary by reflexivity.
    eexists. split; [reflexivity|]. intros req Hin Hu.
    apply filter_In. split; [exact Hin|]. rewrite Hu. reflexivity.
  - intros f requests Hf. exists (RegExp.test (literal_pattern f)).
    split; [now apply filter_url_ordinary | intros u; apply test_literal].
  - intros env s f m statusCode limit result req Hf Hres Hin.
    apply query_network_traffic_listing in Hres as [Hq _].
    destruct f as [| c f].
    { exists EmptyString, EmptyString, (Js.template (url req)).
      split; [reflexivity | exact I]. }
    assert (Hne : String c f <> EmptyString) by discriminate.
    destruct (query_result_passes_url_test _ _ _ _ _ _ _ req Hne Hq Hin)
      as (pattern_test & Ht & Hreq).
    unfold RegExp.make_i in Ht.
    rewrite (replace_star_ordinary _ Hf), (parse_ordinary _ Hf) in Ht.
    injection Ht as <-. now apply test_literal.
  - intros env s c t ts rest limit req Hc He Hlimit Hin Hu.
    destruct (query_keeps_passing_record RegExp.make_i (networkRequests s) "foo"
                limit (RegExp.test (literal_pattern "foo")) req)
      as (result & Hq & Hres & Hpass);
      [discriminate | reflexivity | exact Hlimit | exact Hin
       | rewrite Hu; reflexivity |].
    exists result. split; [|exact Hres].
    apply (query_network_traffic_connected _ _ _ _ _ _ _ c t ts rest);
      try assumption.
    apply formatMarkdown_throws_false. intros r Hr Hnone.
    specialize (Hpass r Hr). rewrite Hnone in Hpass. discriminate.
Qed.

Lemma url_filter_wildcard_and_case_witness :
  (exists pattern_test,
     filter_url RegExp.make_i (Some "foo") (JsMap.values (networkRequests filter_session))
     = Some (filter (fun req => pattern_test (Js.template (url req)))
                    (JsMap.values (networkRequests filter_session)))
     /\ forall u,
          pattern_test u = true
          <-> exists pre mid post,
                u = pre ++ mid ++ post /\ same_ignoring_case "foo" mid)
  /\ (exists result,
        fst (query_network_traffic sample_env RegExp.make_i (Some "foo") None None 50
               filter_session)
        = Return (Markdown result)
        /\ In (request_record "r1" foo_get 1) result).
Proof.
  destruct url_filter_wildcard_and_case as (_ & _ & _ & H4 & _ & H6). split.
  - apply (H4 "foo" (JsMap.values (networkRequests filter_session))). reflexivity.
  - apply (H6 sample_env filter_session open_client page_target [] []).
    + reflexivity.
    + reflexivity.
    + unfold Qle. simpl. lia.
    + simpl. auto.
    + reflexivity.
Defined.

Lemma test_a_dot_c (u : string) :
  RegExp.test [RegExp.One (RegExp.Chr "a"); RegExp.One RegExp.Dot;
               RegExp.One (RegExp.Chr "c")] u = true
  <-> exists pre x y z post,
        u = pre ++ String x (String y (String z post))
        /\ Js.upper_char x = "A"%char
        /\ RegExp.is_line_terminator y = false
        /\ Js.upper_char z = "C"%char.
Proof.
  rewrite test_unanchored. split.
  - intros (pre & mid & post & E & Hm).
    inversion Hm as [| a1 x p1 s1 Hx Hm1 | |]; subst.
    inversion Hm1 as [| a2 y p2 s2 Hy Hm2 | |]; subst.
    inversion Hm2 as [| a3 z p3 s3 Hz Hm3 | |]; subst.
    inversion Hm3; subst.
    exists pre, x, y, z, post. cbn in Hx, Hy, Hz.
    apply Ascii.eqb_eq in Hx, Hz. apply negb_true_iff in Hy.
    repeat split; auto.
  - intros (pre & x & y & z & post & -> & Hx & Hy & Hz).
    exists pre, (String x (String y (String z EmptyString))), post.
    split; [reflexivity|].
    repeat constructor; cbn.
    + apply Ascii.eqb_eq. now rewrite Hx.
    + now rewrite Hy.
    + apply Ascii.eqb_eq. now rewrite Hz.
Qed.

(** C10.  [replace] rewrites [*] and nothing else: every other character,
    pattern syntax included, goes into the source of the expression as it
    is.  So, whatever the expression builder, the handler filters by the
    test built from a [*]-free filter as it stands, and every record
    [query-network-traffic] lists under such a filter has passed that test:
    each syntax character means in the filter what it means to the builder.
    With the filter ["a.c"] the records kept are those whose url has, letter
    case apart, an [a] and a [c] with one character (not a line terminator)
    between them; with a client at hand, the endpoint reachable and a limit
    not below the size of the store, [query-network-traffic] lists a record
    whose url is ["abc"], which does not contain ["a.c"]. *)
Theorem url_filter_metacharacters_unescaped :
  (forall c, Ascii.eqb c "*" = false ->
     replace_star (String c EmptyString) = String c EmptyString)
  /\ replace_star "*" = ".*"
  /\ (forall f g, replace_star (f ++ g) = replace_star f ++ replace_star g)
  /\ (forall f, star_free f = true -> replace_star f = f)
  /\ (forall (RegExp_i : string -> option (string -> bool)) f requests,
        star_free f = true ->
        f <> EmptyString ->
        filter_url RegExp_i (Some f) requests
        = match RegExp_i f with
          | Some pattern_test =>
              Some (filter (fun req => pattern_test (Js.template (url req))) requests)
          | None => None
          end)
  /\ (forall env (RegExp_i : string -> option (string -> bool)) s f m statusCode
             limit result req,
        star_free f = true ->
        f <> EmptyString ->
        fst (query_network_traffic env RegExp_i (Some f) m statusCode limit s)
        = Return (Markdown result) ->
        In req result ->
        exists pattern_test,
          RegExp_i f = Some pattern_test
          /\ pattern_test (Js.template (url req)) = true)
  /\ (forall requests,
        filter_url RegExp.make_i (Some "a.c") requests
        = Some (filter
                  (fun req =>
                     RegExp.test [RegExp.One (RegExp.Chr "a"); RegExp.One RegExp.Dot;
                                  RegExp.One (RegExp.Chr "c")]
                                 (Js.template (url req)))
                  requests))
  /\ (forall u,
        RegExp.test [RegExp.One (RegExp.Chr "a"); RegExp.One RegExp.Dot;
                     RegExp.One (RegExp.Chr "c")] u = true
        <-> exists pre x y z post,
              u = pre ++ String x (String y (String z post))
              /\ Js.upper_char x = "A"%char
              /\ RegExp.is_line_terminator y = false
              /\ Js.upper_char z = "C"%char)
  /\ (forall env s c t ts rest limit req,
        cdpClient s = Some c ->
        endpoint s = Some (t :: ts) :: rest ->
        (inject_Z (Z.of_nat (length (networkRequests s))) <= limit)%Q ->
        In req (JsMap.values (networkRequests s)) ->
        url req = Some "abc" ->
        exists result,
          fst (query_network_traffic env RegExp.make_i (Some "a.c") None None limit s)
          = Return (Markdown result)
          /\ In req result)
  /\ Js.includes "abc" "a.c" = false.
Proof.
  split; [|split; [|split; [|split; [|split; [|split; [|split; [|split; [|split]]]]]]]].
  - intros c Hc. simpl. now rewrite Hc.
  - reflexivity.
  - apply replace_star_app.
  - apply replace_star_free.
  - intros RegExp_i f requests Hstar Hf.
    rewrite filter_url_truthy by exact Hf. now rewrite (replace_star_free f Hstar).
  - intros env RegExp_i s f m statusCode limit result req Hstar Hf Hres Hin.
    apply query_network_traffic_listing in Hres as [Hq _].
    rewrite <- (replace_star_free f Hstar).
    exact (query_result_passes_url_test _ _ _ _ _ _ _ req Hf Hq Hin).
  - intros requests. reflexivity.
  - apply test_a_dot_c.
  - intros env s c t ts rest limit req Hc He Hlimit Hin Hu.
    destruct (query_keeps_passing_record RegExp.make_i (networkRequests s) "a.c"
                limit
                (RegExp.test [RegExp.One (RegExp.Chr "a"); RegExp.One RegExp.Dot;
                              RegExp.One (RegExp.Chr "c")]) req)
      as (result & Hq & Hres & Hpass);
      [discriminate | reflexivity | exact Hlimit | exact Hin
       | rewrite Hu; reflexivity |].
    exists result. split; [|exact Hres].
    apply (query_network_traffic_connected _ _ _ _ _ _ _ c t ts rest);
      try assumption.
    apply formatMarkdown_throws_false. intros r Hr Hnone.
    specialize (Hpass r Hr). rewrite Hnone in Hpass. discriminate.
  - reflexivity.
Qed.

Lemma url_filter_metacharacters_unescaped_witness :
  replace_star "a.c" = "a.c"
  /\ (exists result,
        fst (query_network_traffic sample_env RegExp.make_i (Some "a.c") None None 50
               filter_session)
        = Return (Markdown result)
        /\ In (request_record "r2" abc_get 2) result).
Proof.
  destruct url_filter_metacharacters_unescaped
    as (_ & _ & _ & H4 & _ & _ & _ & _ & H9 & _).
  split.
  - apply H4. reflexivity.
  - apply (H9 sample_env filter_session open_client page_target [] []).
    + reflexivity.
    + reflexivity.
    + unfold Qle. simpl. lia.
    + simpl. auto.
    + reflexivity.
Defined.

(** X9.  A filter [f1*f2] of ordinary characters around one [*] keeps exactly
    the records in whose url [f1] is followed, on the same line and after
    any number of characters, by [f2], letter case apart; and every record
    [query-network-traffic] lists under that filter has such a url. *)
Theorem wildcard_filter_finds_both_parts :
  forall (f1 f2 : string),
    ordinary f1 = true ->
    ordinary f2 = true ->
    exists pattern_test,
      (forall u,
         pattern_test u = true
         <-> exists pre m1 gap m2 post,
               u = pre ++ m1 ++ gap ++ m2 ++ post
               /\ same_ignoring_case f1 m1
               /\ one_line gap
               /\ same_ignoring_case f2 m2)
      /\ (forall requests,
            filter_url RegExp.make_i (Some (f1 ++ "*" ++ f2)) requests
            = Some (filter (fun req => pattern_test (Js.template (url req))) requests))
      /\ (forall env s m statusCode limit result req,
            fst (query_network_traffic env RegExp.make_i (Some (f1 ++ "*" ++ f2))
                   m statusCode limit s)
            = Return (Markdown result) ->
            In req result ->
            pattern_test (Js.template (url req)) = true).
Proof.
  intros f1 f2 H1 H2.
  assert (Hne : f1 ++ "*" ++ f2 <> EmptyString) by (destruct f1; discriminate).
  assert (Hmake : RegExp.make_i (replace_star (f1 ++ "*" ++ f2))
                  = Some (RegExp.test
                            (literal_pattern f1
                             ++ RegExp.Many RegExp.Dot :: literal_pattern f2)%list)).
  { unfold RegExp.make_i.
    rewrite replace_star_app, (replace_star_ordinary f1 H1).
    change (replace_star ("*" ++ f2)) with (".*" ++ replace_star f2).
    now rewrite (replace_star_ordinary f2 H2), (parse_wildcard f1 f2 H1 H2). }
  eexists. split; [|split].
  - intros u. apply test_wildcard.
  - intros requests. rewrite filter_url_truthy by exact Hne. now rewrite Hmake.
  - intros env s m statusCode limit result req Hres Hin.
    apply query_network_traffic_listing in Hres as [Hq _].
    destruct (query_result_passes_url_test _ _ _ _ _ _ _ req Hne Hq Hin)
      as (pattern_test & Ht & Hreq).
    rewrite Hmake in Ht. injection Ht as <-. exact Hreq.
Qed.

Lemma wildcard_filter_finds_both_parts_witness :
  exists pattern_test,
    (forall u,
       pattern_test u = true
       <-> exists pre m1 gap m2 post,
             u = pre ++ m1 ++ gap ++ m2 ++ post
             /\ same_ignoring_case "api" m1
             /\ one_line gap
             /\ same_ignoring_case "json" m2)
    /\ (forall requests,
          filter_url RegExp.make_i (Some ("api" ++ "*" ++ "json")) requests
          = Some (filter (fun req => pattern_test (Js.template (url req))) requests))
    /\ (forall env s m statusCode limit result req,
          fst (query_network_traffic env RegExp.make_i (Some ("api" ++ "*" ++ "json"))
                 m statusCode limit s)
          = Return (Markdown result) ->
          In req result ->
          pattern_test (Js.template (url req)) = true).
Proof.
  apply (wildcard_filter_finds_both_parts "api" "json"); reflexivity.
Defined.

Lemma from_slash_host (host rest : string) :
  slash_free host = true -> from_slash (host ++ "/" ++ rest) = "/" ++ rest.
Proof.
  induction host as [| c host IH]; simpl; [reflexivity|].
  intros H. apply andb_true_iff in H as [Hc Hh].
  apply negb_true_iff in Hc. rewrite Hc. now apply IH.
Qed.

Lemma from_slash_free (host : string) :
  slash_free host = true -> from_slash host = EmptyString.
Proof.
  induction host as [| c host IH]; simpl; [reflexivity|].
  intros H. apply andb_true_iff in H as [Hc Hh].
  apply negb_true_iff in Hc. rewrite Hc. now apply IH.
Qed.

(** X10.  The path shown for a request: for an [http://] or [https://] url with a
    non-empty host, what follows the host, and [/] when nothing follows; a
    url with another scheme is shown whole. *)
Theorem path_of_strips_the_origin :
  forall (host rest other : string),
    host <> EmptyString ->
    slash_free host = true ->
    path_of ("http://" ++ host ++ "/" ++ rest) = "/" ++ rest
    /\ path_of ("https://" ++ host ++ "/" ++ rest) = "/" ++ rest
    /\ path_of ("http://" ++ host) = "/"
    /\ path_of ("https://" ++ host) = "/"
    /\ (after_scheme other = None -> other <> EmptyString -> path_of other = other).
Proof.
  intros host rest other Hne Hfree.
  destruct host as [| c host]; [congruence|].
  pose proof Hfree as Hfree'. simpl in Hfree'.
  apply andb_true_iff in Hfree' as [Hc Hh]. apply negb_true_iff in Hc.
  split; [|split; [|split; [|split]]].
  - unfold path_of, strip_origin, after_scheme. cbn -[from_slash].
    rewrite Hc.
    change (from_slash (host ++ String "/" rest)) with (from_slash (host ++ "/" ++ rest)).
    now rewrite (from_slash_host host rest Hh).
  - unfold path_of, strip_origin, after_scheme. cbn -[from_slash].
    rewrite Hc.
    change (from_slash (host ++ String "/" rest)) with (from_slash (host ++ "/" ++ rest)).
    now rewrite (from_slash_host host rest Hh).
  - unfold path_of, strip_origin, after_scheme. cbn -[from_slash].
    rewrite Hc. now rewrite (from_slash_free host Hh).
  - unfold path_of, strip_origin, after_scheme. cbn -[from_slash].
    rewrite Hc. now rewrite (from_slash_free host Hh).
  - intros Hnone Hother. unfold path_of, strip_origin. rewrite Hnone.
    destruct other; [congruence | reflexivity].
Qed.

Lemma path_of_strips_the_origin_witness :
  path_of ("http://" ++ "example.com:8080" ++ "/" ++ "a/b?x=1") = "/" ++ "a/b?x=1"
  /\ path_of "ws://example.com/socket" = "ws://example.com/socket".
Proof.
  destruct (path_of_strips_the_origin "example.com:8080" "a/b?x=1" "ws://example.com/socket")
    as (H1 & _ & _ & _ & H5); [discriminate | reflexivity |].
  split; [exact H1 | apply H5; [reflexivity | discriminate]].
Defined.

(** ** Properties of [formatMarkdown] *)

Section MarkdownProperties.

Variable hostname : string -> option string.

Lemma bucket_push (d d' : string) (x : NetworkRecord)
    (g : list (string * list NetworkRecord)) :
  bucket d (push_domain d' x g)
  = if String.eqb d d' then (bucket d g ++ [x])%list else bucket d g.
Proof.
  induction g as [| [k rs] g IH]; simpl.
  - destruct (String.eqb d d'); reflexivity.
  - destruct (String.eqb d' k) eqn:E'; simpl.
    + apply String.eqb_eq in E'. subst k.
      destruct (String.eqb d d'); reflexivity.
    + destruct (String.eqb d k) eqn:E; [|exact IH].
      apply String.eqb_eq in E. subst k.
      destruct (String.eqb d d') eqn:E2; [|reflexivity].
      apply String.eqb_eq in E2. subst d'. rewrite String.eqb_refl in E'. discriminate.
Qed.

Lemma keys_push (d : string) (x : NetworkRecord)
    (g : list (string * list NetworkRecord)) :
  map fst (push_domain d x g)
  = if existsb (String.eqb d) (map fst g) then map fst g else (map fst g ++ [d])%list.
Proof.
  induction g as [| [k rs] g IH]; simpl; [reflexivity|].
  destruct (String.eqb d k); simpl; [reflexivity|].
  rewrite IH. destruct (existsb (String.eqb d) (map fst g)); reflexivity.
Qed.

Lemma group_by_domain_snoc (l : list NetworkRecord) (x : NetworkRecord) :
  group_by_domain hostname (l ++ [x])
  = push_domain (domain_of hostname x) x (group_by_domain hostname l).
Proof. unfold group_by_domain. now rewrite fold_left_app. Qed.

Lemma filter_snoc {A} (f : A -> bool) (l : list A) (x : A) :
  filter f (l ++ [x]) = (filter f l ++ (if f x then [x] else []))%list.
Proof. rewrite filter_app. reflexivity. Qed.

(** The [domains] map after the [forEach]: one key per domain met, each
    holding the records of that domain in their order. *)
Lemma group_by_domain_spec (requests : list NetworkRecord) :
  NoDup (map fst (group_by_domain hostname requests))
  /\ (forall d, bucket d (group_by_domain hostname requests)
                = filter (in_domain hostname d) requests)
  /\ (forall d, In d (map fst (group_by_domain hostname requests))
                <-> filter (in_domain hostname d) requests <> []).
Proof.
  induction requests as [| x l (Hnd & Hb & Hk)] using rev_ind.
  - repeat split; simpl; try constructor; tauto.
  - rewrite group_by_domain_snoc. split; [|split].
    + rewrite keys_push.
      destruct (existsb (String.eqb (domain_of hostname x))
                        (map fst (group_by_domain hostname l))) eqn:E; [exact Hnd|].
      apply NoDup_app; [exact Hnd | repeat constructor; simpl; tauto |].
      intros k Hin [<- | []].
      apply existsb_eqb_In in Hin. congruence.
    + intros d. rewrite bucket_push, Hb, filter_snoc.
      change (in_domain hostname d x) with (String.eqb (domain_of hostname x) d).
      rewrite (String.eqb_sym (domain_of hostname x) d).
      destruct (String.eqb d (domain_of hostname x)); [reflexivity|].
      now rewrite app_nil_r.
    + intros d. rewrite keys_push, filter_snoc.
      change (in_domain hostname d x) with (String.eqb (domain_of hostname x) d).
      destruct (existsb (String.eqb (domain_of hostname x))
                        (map fst (group_by_domain hostname l))) eqn:E.
      * rewrite Hk. apply existsb_eqb_In, Hk in E.
        destruct (String.eqb (domain_of hostname x) d) eqn:Ed.
        -- apply String.eqb_eq in Ed. subst d. split; [|auto].
           intros _ H. apply app_eq_nil in H as [H _]. contradiction.
        -- now rewrite app_nil_r.
      * rewrite in_app_iff, Hk. simpl.
        destruct (String.eqb (domain_of hostname x) d) eqn:Ed.
        -- apply String.eqb_eq in Ed. split; [|auto].
           intros _ H. apply app_eq_nil in H as [_ H]. discriminate.
        -- rewrite app_nil_r. split; [|auto].
           intros [H | [H | []]]; [exact H|].
           subst d. rewrite String.eqb_refl in Ed. discriminate.
Qed.

Lemma bucket_of_entry (g : list (string * list NetworkRecord)) (d : string)
    (rs : list NetworkRecord) :
  NoDup (map fst g) -> In (d, rs) g -> bucket d g = rs.
Proof.
  induction g as [| [k rs'] g IH]; simpl; [tauto|].
  intros Hnd [[= -> ->] | Hin].
  - now rewrite String.eqb_refl.
  - inversion Hnd as [| ? ? Hk Hnd']; subst.
    destruct (String.eqb d k) eqn:E; [|auto].
    apply String.eqb_eq in E. subst k. exfalso. apply Hk.
    apply (in_map fst) in Hin. exact Hin.
Qed.

Lemma entry_of_key (g : list (string * list NetworkRecord)) (d : string) :
  In d (map fst g) -> In (d, bucket d g) g.
Proof.
  induction g as [| [k rs] g IH]; simpl; [tauto|].
  destruct (String.eqb d k) eqn:E.
  - apply String.eqb_eq in E. subst k. now left.
  - intros [-> | Hin]; [rewrite String.eqb_refl in E; discriminate | auto].
Qed.

Lemma sortedDomains_In (requests : list NetworkRecord) (d : string)
    (rs : list NetworkRecord) :
  In (d, rs) (sortedDomains hostname requests)
  <-> rs = filter (in_domain hostname d) requests /\ rs <> [].
Proof.
  destruct (group_by_domain_spec requests) as (Hnd & Hb & Hk).
  unfold sortedDomains. split.
  - intros Hin. apply sort_In in Hin.
    pose proof (bucket_of_entry _ _ _ Hnd Hin) as Hrs. rewrite Hb in Hrs.
    split; [now symmetry|]. subst rs. apply Hk.
    apply (in_map fst) in Hin. exact Hin.
  - intros [-> Hne]. apply Hk in Hne. apply entry_of_key in Hne. rewrite Hb in Hne.
    eapply Permutation_in; [symmetry; apply sort_permutation | exact Hne].
Qed.

(** X11.  The buckets that are listed partition the records by domain: one bucket
    per domain that occurs, holding the records of that domain (those whose
    url does not parse under [invalid-url]) in the order they came in. *)
Theorem buckets_partition_by_domain :
  forall requests : list NetworkRecord,
    NoDup (map fst (sortedDomains hostname requests))
    /\ (forall d rs,
          In (d, rs) (sortedDomains hostname requests)
          <-> rs = filter (in_domain hostname d) requests /\ rs <> [])
    /\ (forall req,
          In req requests ->
          hostname (Js.template (url req)) = None ->
          In req (filter (in_domain hostname "invalid-url") requests)
          /\ forall d, d <> "invalid-url" ->
                       ~ In req (filter (in_domain hostname d) requests)).
Proof.
  intros requests. split; [|split].
  - destruct (group_by_domain_spec requests) as (Hnd & _ & _).
    unfold sortedDomains.
    eapply Permutation_NoDup; [|exact Hnd].
    apply Permutation_map. symmetry. apply sort_permutation.
  - apply sortedDomains_In.
  - intros req Hin Hhost.
    assert (Hd : domain_of hostname req = "invalid-url").
    { unfold domain_of. now rewrite Hhost. }
    split.
    + apply filter_In. split; [exact Hin|]. unfold in_domain. now rewrite Hd.
    + intros d Hne H. apply filter_In in H as [_ H]. unfold in_domain in H.
      apply String.eqb_eq in H. congruence.
Qed.

Lemma by_count_sorted_insert (x : string * list NetworkRecord)
    (l : list (string * list NetworkRecord)) :
  StronglySorted not_smaller l ->
  StronglySorted not_smaller (Js.sort_insert by_count_desc x l).
Proof.
  intros Hl. induction Hl as [| y l Hl IH Hy]; simpl.
  - repeat constructor.
  - destruct (Qle_bool (by_count_desc x y) 0) eqn:E.
    + apply Qle_bool_iff in E. unfold by_count_desc in E.
      change 0%Q with (inject_Z 0) in E. rewrite <- Zle_Qle in E.
      assert (Hxy : not_smaller x y) by (unfold not_smaller; lia).
      constructor; [constructor; assumption|].
      constructor; [exact Hxy|].
      eapply Forall_impl; [|exact Hy].
      unfold not_smaller in *. intros z Hz. lia.
    + assert (Hyx : not_smaller y x).
      { unfold not_smaller.
        destruct (le_gt_dec (length (snd x)) (length (snd y))) as [Hle | Hgt];
          [exact Hle|].
        exfalso. assert (Qle_bool (by_count_desc x y) 0 = true); [|congruence].
        apply Qle_bool_iff. unfold by_count_desc.
        change 0%Q with (inject_Z 0). rewrite <- Zle_Qle. lia. }
      constructor; [exact IH|].
      apply sort_insert_Forall; assumption.
Qed.

(** X12.  Buckets are listed by size, largest first. *)
Theorem buckets_listed_largest_first :
  forall requests : list NetworkRecord,
    StronglySorted not_smaller (sortedDomains hostname requests).
Proof.
  intros requests. unfold sortedDomains.
  induction (group_by_domain hostname requests) as [| x l IH]; simpl.
  - constructor.
  - apply by_count_sorted_insert, IH.
Qed.

Lemma append_all_None {A} (render : A -> option string) (items : list A) :
  forall md, append_all render items md = None
             <-> exists x, In x items /\ render x = None.
Proof.
  induction items as [| x items IH]; intros md; simpl.
  - split; [discriminate | intros (x & [] & _)].
  - destruct (render x) as [piece |] eqn:E.
    + rewrite IH. split.
      * intros (y & Hy & Hr). eauto.
      * intros (y & [<- | Hy] & Hr); [congruence | eauto].
    + split; [eauto | reflexivity].
Qed.

Lemma formatMarkdown_throws_iff (requests : list NetworkRecord) :
  formatMarkdown_throws requests = true
  <-> exists req, In req requests /\ url req = None.
Proof.
  unfold formatMarkdown_throws. rewrite existsb_exists. split.
  - intros (req & Hin & H). exists req. split; [exact Hin|].
    destruct (url req); [discriminate | reflexivity].
  - intros (req & Hin & H). exists req. now rewrite H.
Qed.

(** X13.  [formatMarkdown] throws exactly when one of the records it is given has
    no url; whether a url parses makes no difference.  An empty list gives
    the fixed text. *)
Theorem formatMarkdown_throws_without_url :
  forall requests : list NetworkRecord,
    (formatMarkdown hostname requests = None <-> formatMarkdown_throws requests = true)
    /\ formatMarkdown hostname [] = Some "## No network requests found".
Proof.
  intros requests. split; [|reflexivity].
  rewrite formatMarkdown_throws_iff.
  destruct requests as [| r0 rs0].
  - simpl. split; [discriminate | intros (x & [] & _)].
  - change (formatMarkdown hostname (r0 :: rs0))
      with (append_all domain_block (sortedDomains hostname (r0 :: rs0))
              ("## Network Traffic (" ++ Js.string_of_nat (length (r0 :: rs0))
               ++ " requests)" ++ nl ++ nl)).
    remember (r0 :: rs0) as requests eqn:Er. clear Er.
    rewrite append_all_None. split.
    + intros ([d rs] & Hin & Hblock).
      apply sortedDomains_In in Hin as [-> _].
      unfold domain_block in Hblock. cbn [fst snd] in Hblock.
      destruct (append_all request_line _ _) eqn:Hlines; [discriminate|].
      apply append_all_None in Hlines as (req & Hreq & Hline).
      apply filter_In in Hreq as [Hreq _]. exists req. split; [exact Hreq|].
      unfold request_line in Hline. destruct (url req); [discriminate | reflexivity].
    + intros (req & Hin & Hurl).
      exists (domain_of hostname req,
              filter (in_domain hostname (domain_of hostname req)) requests).
      assert (Hmem : In req (filter (in_domain hostname (domain_of hostname req)) requests)).
      { apply filter_In. split; [exact Hin|]. apply String.eqb_refl. }
      split.
      * apply sortedDomains_In. split; [reflexivity|].
        intros H. rewrite H in Hmem. contradiction.
      * unfold domain_block. cbn [fst snd].
        match goal with
        | |- match append_all ?r ?l ?md with _ => _ end = None =>
            assert (Hnone : append_all r l md = None)
        end.
        { apply append_all_None. exists req. split; [exact Hmem|].
          unfold request_line. now rewrite Hurl. }
        now rewrite Hnone.
Qed.

End MarkdownProperties.

Example formatMarkdown_sample :
  formatMarkdown sample_hostname
    (JsMap.values
       (ingest [ RequestWillBeSent "r1" sample_get 1;
                 RequestWillBeSent "r2" (mkRequest "https://b.io" "POST" [] None) 2;
                 RequestWillBeSent "r3" (mkRequest "not-a-url" "GET" [] None) 3;
                 RequestWillBeSent "r4" (mkRequest "https://b.io/y?z" "GET" [] None) 4;
                 ResponseReceived "r4" (sample_response 404) 5 ] JsMap.empty))
  = Some ("## Network Traffic (4 requests)" ++ nl ++ nl
          ++ "b.io (2):" ++ nl
          ++ "POST " ++ hourglass ++ " / [r2]" ++ nl
          ++ "GET 404 /y?z [r4]" ++ nl ++ nl
          ++ "a (1):" ++ nl
          ++ "GET " ++ hourglass ++ " /x [r1]" ++ nl ++ nl
          ++ "invalid-url (1):" ++ nl
          ++ "GET " ++ hourglass ++ " not-a-url [r3]" ++ nl ++ nl).
Proof. reflexivity. Qed.

Lemma buckets_partition_by_domain_witness :
  In (request_record "r3" (mkRequest "not-a-url" "GET" [] None) 3)
     (filter (in_domain sample_hostname "invalid-url")
        [request_record "r1" sample_get 1;
         request_record "r3" (mkRequest "not-a-url" "GET" [] None) 3]).
Proof.
  apply (proj2 (proj2 (buckets_partition_by_domain sample_hostname
                         [request_record "r1" sample_get 1;
                          request_record "r3" (mkRequest "not-a-url" "GET" [] None) 3]))
               (request_record "r3" (mkRequest "not-a-url" "GET" [] None) 3)).
  - right. left. reflexivity.
  - reflexivity.
Defined.

(** ** The error boundary of the handlers *)

Section Boundary.

Variable env : Env.
Variable RegExp_i : string -> option (string -> bool).

Lemma never_crashes_ret {A} (a : A) : never_crashes (ret a).
Proof. intros s. exact I. Qed.

Lemma never_crashes_throw {A} (msg : string) : never_crashes (@throw A msg).
Proof. intros s. exact I. Qed.

Lemma never_crashes_bind {A B} (m : M A) (k : A -> M B) :
  never_crashes m -> (forall a, never_crashes (k a)) -> never_crashes (bind m k).
Proof.
  intros Hm Hk s. unfold bind. specialize (Hm s).
  destruct (m s) as [[a | msg | msg] s']; simpl in *; [apply Hk | exact I | exact Hm].
Qed.

Lemma never_crashes_try_catch {A} (body : M A) (handler : string -> M A) :
  never_crashes body -> (forall msg, never_crashes (handler msg)) ->
  never_crashes (try_catch body handler).
Proof.
  intros Hb Hh s. unfold try_catch. specialize (Hb s).
  destruct (body s) as [[a | msg | msg] s']; simpl in *; [exact I | apply Hh | exact Hb].
Qed.

Lemma never_crashes_log (e : Effect) : never_crashes (log e).
Proof. intros s. exact I. Qed.

Lemma never_crashes_get_state : never_crashes get_state.
Proof. intros s. exact I. Qed.

Lemma never_crashes_set_cdpClient (c : option CdpClient) : never_crashes (set_cdpClient c).
Proof. intros s. exact I. Qed.

Lemma never_crashes_set_chromeProcess (p : option ChildProcess) :
  never_crashes (set_chromeProcess p).
Proof. intros s. exact I. Qed.

Lemma never_crashes_CDP_List : never_crashes CDP_List.
Proof. intros s. unfold CDP_List. destruct (endpoint s) as [| [ts |] rest]; exact I. Qed.

Ltac no_crash :=
  repeat first
    [ apply never_crashes_ret
    | apply never_crashes_throw
    | apply never_crashes_log
    | apply never_crashes_get_state
    | apply never_crashes_set_cdpClient
    | apply never_crashes_set_chromeProcess
    | apply never_crashes_CDP_List
    | apply never_crashes_try_catch; [|intros]
    | apply never_crashes_bind; [|intros]
    | match goal with
      | |- never_crashes (match ?x with _ => _ end) => destruct x
      end ].

Lemma never_crashes_perform (e : Effect) : never_crashes (perform env e).
Proof. unfold perform. no_crash. Qed.

Lemma never_crashes_CDP_connect (target : string) :
  never_crashes (CDP_connect env target).
Proof.
  unfold CDP_connect. apply never_crashes_bind; [apply never_crashes_perform|].
  intros _ s. exact I.
Qed.

Lemma never_crashes_isChromeAccessible : never_crashes isChromeAccessible.
Proof. unfold isChromeAccessible. no_crash. Qed.

Lemma never_crashes_waitForChromeAccessible (n : nat) (delayMs : Z) :
  never_crashes (waitForChromeAccessible n delayMs).
Proof.
  induction n as [| n IH]; simpl; [apply never_crashes_ret|].
  apply never_crashes_bind; [apply never_crashes_isChromeAccessible|].
  intros st. destruct (fst st); [apply never_crashes_ret|].
  apply never_crashes_bind; [apply never_crashes_log | intros; exact IH].
Qed.

Ltac no_crash_host :=
  repeat first
    [ apply never_crashes_perform
    | apply never_crashes_CDP_connect
    | apply never_crashes_isChromeAccessible
    | apply never_crashes_waitForChromeAccessible
    | progress no_crash ].

Lemma returns_of_boundary {A} (body : M A) (handler : string -> A) :
  never_crashes body ->
  always_returns (try_catch body (fun msg => ret (handler msg))).
Proof.
  intros Hb s. unfold try_catch. specialize (Hb s).
  destruct (body s) as [[a | msg | msg] s']; simpl in *; [eauto | | contradiction].
  unfold ret. eauto.
Qed.

(** X15.  The handlers of [query-network-traffic], [get-network-details] and
    [open-url] (up to the navigation) hand a result back whatever the endpoint
    answers and whichever call throws: no exception leaves them. *)
Theorem handlers_catch_every_error :
  (forall urlFilter m statusCode limit,
      always_returns (query_network_traffic env RegExp_i urlFilter m statusCode limit))
  /\ (forall rid includeHeaders,
        always_returns (get_network_details env rid includeHeaders))
  /\ (forall to, always_returns (open_url_navigate env to)).
Proof.
  split; [|split].
  - intros urlFilter m statusCode limit. unfold query_network_traffic.
    apply returns_of_boundary. unfold query_connect, subscribe_persistent.
    no_crash_host.
  - intros rid includeHeaders. unfold get_network_details.
    apply returns_of_boundary. unfold fetch_responseBody, fetch_postData.
    no_crash_host.
  - intros to. unfold open_url_navigate.
    apply (returns_of_boundary _ (fun msg => Some (Text ("Error opening URL: " ++ msg)))).
    unfold open_url_connect, subscribe_persistent.
    no_crash_host.
Qed.

(** X16.  [start-chrome-debug] hands a result back whenever [pkill] can be spawned
    and the browser's child process does not emit ["error"]; a [spawn] that
    throws is reported as text. *)
Theorem start_returns_text :
  forall (userDataDir : option string) (headless : bool),
    pkill_spawns env = true ->
    (forall msg, spawn_chrome env <> SpawnErrorEvent msg) ->
    always_returns (start_chrome_debug env userDataDir headless).
Proof.
  intros userDataDir headless Hpkill Hspawn. unfold start_chrome_debug.
  apply returns_of_boundary.
  unfold killChromeDebugProcesses, spawn_chromeProcess. rewrite Hpkill.
  destruct (spawn_chrome env) as [child | msg | msg] eqn:E;
    [| | exfalso; eapply Hspawn; reflexivity];
    no_crash_host.
Qed.

End Boundary.

Lemma start_returns_text_witness :
  exists a s',
    start_chrome_debug
      (mkEnv "darwin" "/tmp/p" true (SpawnThrows "spawn EACCES") (fun _ => None)
             (fun _ => None) (fun _ => None))
      None false (mkState None JsMap.empty None [] 0 [])
    = (Return a, s').
Proof.
  apply (start_returns_text
           (mkEnv "darwin" "/tmp/p" true (SpawnThrows "spawn EACCES") (fun _ => None)
                  (fun _ => None) (fun _ => None))
           None false).
  - reflexivity.
  - discriminate.
Defined.

(** ** Further properties of [start-chrome-debug] *)

Section StartProperties.

Variable env : Env.

Lemma isChromeAccessible_answer (s : State) :
  isChromeAccessible s
  = (Return (negb (unreachable (nth 0 (endpoint s) None)), nth 0 (endpoint s) None),
     advanced s 1 [CdpList]).
Proof.
  unfold isChromeAccessible, try_catch, bind, CDP_List, advanced.
  destruct (endpoint s) as [| [[| t ts] |] rest]; reflexivity.
Qed.

(** The polling loop when the endpoint comes up at the poll after [k]
    failed ones. *)
Lemma waitForChromeAccessible_comes_up (delayMs : Z) (k : nat) :
  forall (n : nat) (s : State),
    (k < n)%nat ->
    (forall i, (i < k)%nat -> unreachable (nth i (endpoint s) None) = true) ->
    unreachable (nth k (endpoint s) None) = false ->
    waitForChromeAccessible n delayMs s
    = (Return true, advanced s (S k) (polls k delayMs ++ [CdpList])).
Proof.
  induction k as [| k IH]; intros n s Hn Hu Hr; (destruct n as [| n]; [lia|]);
    cbn [waitForChromeAccessible]; unfold bind at 1;
    rewrite isChromeAccessible_answer.
  - rewrite Hr. reflexivity.
  - rewrite (Hu 0%nat) by lia. cbn [negb fst].
    unfold bind at 1. rewrite log_advanced.
    rewrite (IH n).
    + rewrite !advanced_advanced. simpl.
      replace (k + 0 + 1)%nat with (S k) by lia. reflexivity.
    + lia.
    + intros i Hi. rewrite advanced_advanced. cbn [endpoint advanced].
      rewrite nth_after_skipn. apply Hu. lia.
    + rewrite advanced_advanced. cbn [endpoint advanced].
      rewrite nth_after_skipn. exact Hr.
Qed.

(** X17.  When the endpoint is unreachable at first and comes up at the poll after
    [k < 15] failed ones, the handler spawns the browser once, stops polling
    there, keeps the child in [chromeProcess] and reports it together with
    the number of targets of one more listing (zero when that listing
    fails). *)
Theorem start_succeeds_once_endpoint_is_up :
  forall (s : State) (userDataDir : option string) (headless : bool) (child : Z)
         (k : nat),
    pkill_spawns env = true ->
    spawn_chrome env = Spawned child ->
    (k < 15)%nat ->
    (forall i, (i <= k)%nat -> unreachable (nth i (endpoint s) None) = true) ->
    unreachable (nth (S k) (endpoint s) None) = false ->
    start_chrome_debug env userDataDir headless s
    = (Return (Text (started_report child (profile_dir env userDataDir)
                       (target_count (nth (S (S k)) (endpoint s) None)))),
       {| chromeProcess := Some (mkChild child);
          networkRequests := networkRequests s;
          cdpClient := cdpClient s;
          endpoint := skipn (S (S (S k))) (endpoint s);
          next_client := next_client s;
          trace := trace s
                   ++ [CdpList; Pkill; Sleep 1000;
                       Spawn (getChromeExecutablePath env)
                             (chromeArgs (profile_dir env userDataDir) headless)]
                   ++ polls k 500
                   ++ [CdpList; CdpList] |}).
Proof.
  intros s userDataDir headless child k Hpkill Hspawn Hk Hu Hr.
  unfold start_chrome_debug, try_catch.
  unfold bind at 1. rewrite isChromeAccessible_answer.
  rewrite (Hu 0%nat) by lia. cbn [negb fst].
  unfold bind at 1.
  unfold killChromeDebugProcesses, try_catch. rewrite Hpkill.
  unfold bind at 1. rewrite !log_advanced.
  unfold bind at 1.
  unfold spawn_chromeProcess. rewrite Hspawn.
  unfold bind at 1. rewrite log_advanced.
  unfold set_chromeProcess at 1.
  unfold bind at 1.
  rewrite (waitForChromeAccessible_comes_up 500 k 15).
  - unfold bind at 1. rewrite isChromeAccessible_answer.
    unfold bind, get_state, ret, advanced, started_report, profile_dir.
    cbn -[skipn polls app nth Js.string_of_nat Js.string_of_Z String.append].
    rewrite !nth_after_skipn.
    replace (1 + (0 + (0 + (0 + (S k + 0)))))%nat with (S (S k)) by lia.
    do 2 f_equal.
    + rewrite !skipn_skipn. f_equal. lia.
    + rewrite <- !app_assoc. reflexivity.
  - exact Hk.
  - intros i Hi. rewrite !advanced_advanced. cbn [endpoint advanced].
    rewrite nth_after_skipn. apply Hu. lia.
  - rewrite !advanced_advanced. cbn [endpoint advanced].
    rewrite nth_after_skipn. exact Hr.
Qed.

(** X18.  A [spawn] that throws is reported as text; nothing is polled and
    [chromeProcess] is left as it was. *)
Theorem start_reports_spawn_failure :
  forall (s : State) (userDataDir : option string) (headless : bool) (msg : string),
    pkill_spawns env = true ->
    spawn_chrome env = SpawnThrows msg ->
    unreachable (nth 0 (endpoint s) None) = true ->
    start_chrome_debug env userDataDir headless s
    = (Return (Text ("Failed to start Chrome: " ++ msg)),
       advanced s 1
         [CdpList; Pkill; Sleep 1000;
          Spawn (getChromeExecutablePath env)
                (chromeArgs (profile_dir env userDataDir) headless)]).
Proof.
  intros s userDataDir headless msg Hpkill Hspawn Hu.
  unfold start_chrome_debug, try_catch.
  unfold bind at 1. rewrite isChromeAccessible_answer, Hu. cbn [negb fst].
  unfold bind at 1.
  unfold killChromeDebugProcesses, try_catch. rewrite Hpkill.
  unfold bind at 1. rewrite !log_advanced.
  unfold bind at 1.
  unfold spawn_chromeProcess. rewrite Hspawn.
  unfold bind at 1. rewrite log_advanced.
  unfold throw, ret. rewrite !advanced_advanced. reflexivity.
Qed.

End StartProperties.

Lemma start_succeeds_once_endpoint_is_up_witness :
  fst (start_chrome_debug sample_env (Some "/tmp/profile") false
         (mkState None JsMap.empty None [None; Some []; None; Some [page_target]] 0 []))
  = Return (Text (started_report 4242 "/tmp/profile" 0)).
Proof.
  rewrite (start_succeeds_once_endpoint_is_up sample_env _ (Some "/tmp/profile") false 4242 2).
  - reflexivity.
  - reflexivity.
  - reflexivity.
  - lia.
  - intros i Hi. do 3 (destruct i as [| i]; [reflexivity|]). lia.
  - reflexivity.
Defined.

Lemma start_reports_spawn_failure_witness :
  fst (start_chrome_debug
         (mkEnv "linux" "/tmp/p" true (SpawnThrows "spawn EACCES") (fun _ => None)
                (fun _ => None) (fun _ => None))
         None false (mkState None JsMap.empty None [] 0 []))
  = Return (Text "Failed to start Chrome: spawn EACCES").
Proof.
  rewrite (start_reports_spawn_failure _ _ None false "spawn EACCES");
    reflexivity.
Defined.

(** ** Further properties of the connection bring-up *)

(** X19.  The target chosen: none only when there is no target at all; the first
    target of type [page] when there is one, whatever precedes it; else the
    first target. *)
Theorem pageTarget_prefers_pages :
  forall (before after : list Target) (t : Target) (targets : list Target),
    (pageTarget targets = None <-> targets = [])
    /\ (target_type t = "page" ->
        Forall (fun o => target_type o <> "page") before ->
        pageTarget (before ++ t :: after) = Some t)
    /\ (Forall (fun o => target_type o <> "page") targets ->
        pageTarget targets = hd_error targets).
Proof.
  intros before after t targets. split; [|split].
  - unfold pageTarget. destruct targets as [| t0 ts]; simpl; [tauto|].
    destruct (String.eqb (target_type t0) "page"); [split; discriminate|].
    destruct (find _ ts); split; discriminate.
  - intros Ht Hb. unfold pageTarget.
    assert (Hfind : find (fun o => String.eqb (target_type o) "page") (before ++ t :: after)
                    = Some t).
    { induction Hb as [| o before Ho Hb IH]; simpl.
      - now rewrite Ht.
      - destruct (String.eqb (target_type o) "page") eqn:E; [|exact IH].
        apply String.eqb_eq in E. contradiction. }
    now rewrite Hfind.
  - intros Hn. unfold pageTarget.
    assert (Hfind : find (fun o => String.eqb (target_type o) "page") targets = None).
    { induction Hn as [| o ts Ho Hn IH]; simpl; [reflexivity|].
      destruct (String.eqb (target_type o) "page") eqn:E; [|exact IH].
      apply String.eqb_eq in E. contradiction. }
    now rewrite Hfind.
Qed.

Lemma pageTarget_prefers_pages_witness :
  pageTarget ([worker_target] ++ page_target :: [worker_target]) = Some page_target
  /\ pageTarget [worker_target; worker_target] = Some worker_target.
Proof.
  destruct (pageTarget_prefers_pages [worker_target] [worker_target] page_target
              [worker_target; worker_target]) as (_ & Hpage & Hfirst).
  split.
  - apply Hpage; [reflexivity | repeat constructor; discriminate].
  - apply Hfirst. repeat constructor; discriminate.
Defined.

Section ConnectionMore.

Variable env : Env.
Variable RegExp_i : string -> option (string -> bool).

(** X20.  The first [query-network-traffic] of a session, with no client yet:
    the handler lists the targets again, connects to the chosen one, enables
    the Network domain, registers the two persistent listeners and keeps the
    client in [cdpClient]. *)
Theorem query_connects_on_first_use :
  forall (s : State) (urlFilter m : option string) (statusCode : option Z) (limit : Q)
         (probe targets : list Target) (t : Target)
         (rest : list (option (list Target))),
    (forall e, rejects env e = None) ->
    cdpClient s = None ->
    endpoint s = Some probe :: Some targets :: rest ->
    probe <> [] ->
    pageTarget targets = Some t ->
    snd (query_network_traffic env RegExp_i urlFilter m statusCode limit s)
    = {| chromeProcess := chromeProcess s;
         networkRequests := networkRequests s;
         cdpClient := Some (mkClient (next_client s) (webSocketDebuggerUrl t) (Some 1));
         endpoint := rest;
         next_client := S (next_client s);
         trace := trace s
                  ++ [ CdpList; CdpList; CdpConnect (webSocketDebuggerUrl t);
                       NetworkEnable (next_client s);
                       Subscribe (next_client s) "Network.requestWillBeSent";
                       Subscribe (next_client s) "Network.responseReceived" ] |}.
Proof.
  intros s urlFilter m statusCode limit probe targets t rest Hrej Hc He Hprobe Ht.
  destruct s as [cp nr cl ep nc tr]. cbn [cdpClient endpoint] in Hc, He. subst cl ep.
  destruct probe as [| p0 probe]; [congruence|].
  unfold query_network_traffic, try_catch, isChromeAccessible, try_catch, bind,
    query_connect, bind, get_state, CDP_List, CDP_connect, perform, bind, log,
    set_cdpClient, subscribe_persistent, bind, log.
  cbn -[pageTarget query formatMarkdown_throws]. rewrite Ht.
  repeat (cbn -[pageTarget query formatMarkdown_throws]; rewrite Hrej).
  cbn -[pageTarget query formatMarkdown_throws].
  destruct (query RegExp_i nr urlFilter m statusCode limit) as [l |];
    [destruct (formatMarkdown_throws l)|];
    cbn; rewrite <- !app_assoc; reflexivity.
Qed.

(** X21.  When [Network.enable] rejects on that first use, the handler reports the
    error, but the new client is already in [cdpClient] and no listener has
    been registered. *)
Theorem query_keeps_client_when_enable_rejects :
  forall (s : State) (urlFilter m : option string) (statusCode : option Z) (limit : Q)
         (probe targets : list Target) (t : Target)
         (rest : list (option (list Target))) (msg : string),
    rejects env (CdpConnect (webSocketDebuggerUrl t)) = None ->
    rejects env (NetworkEnable (next_client s)) = Some msg ->
    cdpClient s = None ->
    endpoint s = Some probe :: Some targets :: rest ->
    probe <> [] ->
    pageTarget targets = Some t ->
    query_network_traffic env RegExp_i urlFilter m statusCode limit s
    = (Return (Text ("Error querying network traffic: " ++ msg)),
       {| chromeProcess := chromeProcess s;
          networkRequests := networkRequests s;
          cdpClient := Some (mkClient (next_client s) (webSocketDebuggerUrl t) (Some 1));
          endpoint := rest;
          next_client := S (next_client s);
          trace := trace s
                   ++ [ CdpList; CdpList; CdpConnect (webSocketDebuggerUrl t);
                        NetworkEnable (next_client s) ] |}).
Proof.
  intros s urlFilter m statusCode limit probe targets t rest msg Hconn Hen Hc He Hprobe Ht.
  destruct s as [cp nr cl ep nc tr].
  cbn [cdpClient endpoint next_client] in Hc, He, Hen. subst cl ep.
  destruct probe as [| p0 probe]; [congruence|].
  unfold query_network_traffic, try_catch, isChromeAccessible, try_catch, bind,
    query_connect, bind, get_state, CDP_List, CDP_connect, perform, bind, log,
    set_cdpClient, subscribe_persistent, bind, log.
  cbn -[pageTarget query formatMarkdown_throws String.append]. rewrite Ht.
  cbn -[pageTarget query formatMarkdown_throws String.append]. rewrite Hconn.
  cbn -[pageTarget query formatMarkdown_throws String.append]. rewrite Hen.
  cbn -[String.append]. unfold ret. rewrite <- !app_assoc. reflexivity.
Qed.

(** X22.  [open-url] reuses a client whose socket is open: it neither closes nor
    connects, enables no domain again and registers only the two listeners
    of the page load before navigating. *)
Theorem open_url_reuses_open_client :
  forall (s : State) (c : CdpClient) (to : string)
         (probe targets : list Target) (t : Target)
         (rest : list (option (list Target))),
    rejects env (PageNavigate (client_id c) to) = None ->
    cdpClient s = Some c ->
    readyState c = Some 1 ->
    endpoint s = Some probe :: Some targets :: rest ->
    probe <> [] ->
    pageTarget targets = Some t ->
    open_url_navigate env to s
    = (Return None,
       {| chromeProcess := chromeProcess s;
          networkRequests := networkRequests s;
          cdpClient := Some c;
          endpoint := rest;
          next_client := next_client s;
          trace := trace s
                   ++ [ CdpList; CdpList;
                        Subscribe (client_id c) "Network.requestWillBeSent";
                        Subscribe (client_id c) "Network.responseReceived";
                        PageNavigate (client_id c) to ] |}).
Proof.
  intros s c to probe targets t rest Hnav Hc Hopen He Hprobe Ht.
  destruct s as [cp nr cl ep nc tr]. cbn [cdpClient endpoint] in Hc, He. subst cl ep.
  destruct probe as [| p0 probe]; [congruence|].
  unfold open_url_navigate, try_catch, isChromeAccessible, try_catch, bind, CDP_List,
    open_url_connect, bind, get_state, socket_not_open, perform, bind, log.
  cbn -[pageTarget]. rewrite Ht. cbn -[pageTarget]. rewrite Hopen.
  cbn. rewrite Hnav. cbn. unfold ret. rewrite <- !app_assoc. reflexivity.
Qed.

End ConnectionMore.

Lemma query_connects_on_first_use_witness :
  cdpClient
    (snd (query_network_traffic sample_env RegExp.make_i None None None 50
            (mkState None JsMap.empty None
               [Some [worker_target]; Some [worker_target; page_target]] 7 [])))
  = Some (mkClient 7 (webSocketDebuggerUrl page_target) (Some 1)).
Proof.
  rewrite (query_connects_on_first_use sample_env RegExp.make_i _ None None None 50
             [worker_target] [worker_target; page_target] page_target []).
  - reflexivity.
  - reflexivity.
  - reflexivity.
  - reflexivity.
  - discriminate.
  - reflexivity.
Defined.

Lemma query_keeps_client_when_enable_rejects_witness :
  query_network_traffic
    (mkEnv "linux" "/tmp/p" true (Spawned 1)
           (fun e => match e with NetworkEnable _ => Some "Target closed" | _ => None end)
           (fun _ => None) (fun _ => None))
    RegExp.make_i None None None 50
    (mkState None JsMap.empty None [Some [page_target]; Some [page_target]] 0 [])
  = (Return (Text "Error querying network traffic: Target closed"),
     mkState None JsMap.empty
       (Some (mkClient 0 (webSocketDebuggerUrl page_target) (Some 1))) [] 1
       [CdpList; CdpList; CdpConnect (webSocketDebuggerUrl page_target); NetworkEnable 0]).
Proof.
  apply (query_keeps_client_when_enable_rejects _ RegExp.make_i
           (mkState None JsMap.empty None [Some [page_target]; Some [page_target]] 0 [])
           None None None 50 [page_target] [page_target] page_target [] "Target closed").
  - reflexivity.
  - reflexivity.
  - reflexivity.
  - reflexivity.
  - discriminate.
  - reflexivity.
Defined.

Lemma open_url_reuses_open_client_witness :
  trace
    (snd (open_url_navigate sample_env "http://a/"
            (mkState None JsMap.empty (Some open_client)
               [Some [page_target]; Some [page_target]] 1 [])))
  = [ CdpList; CdpList;
      Subscribe 0 "Network.requestWillBeSent"; Subscribe 0 "Network.responseReceived";
      PageNavigate 0 "http://a/" ].
Proof.
  rewrite (open_url_reuses_open_client sample_env _ open_client "http://a/"
             [page_target] [page_target] page_target []).
  - reflexivity.
  - reflexivity.
  - reflexivity.
  - reflexivity.
  - reflexivity.
  - discriminate.
  - reflexivity.
Defined.

(** ** Further properties of [get-network-details] and of the query handler *)

Section DetailsProperties.

Variable env : Env.
Variable RegExp_i : string -> option (string -> bool).

(** X23.  Without a client, or for an id the store does not know, the handler
    answers with the corresponding error text and makes no protocol call. *)
Theorem details_need_client_and_record :
  forall (s : State) (rid : string) (includeHeaders : bool)
         (targets : list Target) (rest : list (option (list Target))),
    endpoint s = Some targets :: rest ->
    targets <> [] ->
    (cdpClient s = None ->
     get_network_details env rid includeHeaders s
     = (Return (Text "Error: No active CDP connection. Please run 'query-network-traffic' first to establish connection."),
        advanced s 1 [CdpList]))
    /\ (forall c, cdpClient s = Some c ->
        JsMap.get rid (networkRequests s) = None ->
        get_network_details env rid includeHeaders s
        = (Return (Text ("Error: No request found with ID: " ++ rid)),
           advanced s 1 [CdpList])).
Proof.
  intros s rid includeHeaders targets rest He Hne.
  destruct s as [cp nr cl ep nc tr]. cbn [cdpClient endpoint networkRequests] in *.
  subst ep. destruct targets as [| t0 targets]; [congruence|].
  unfold get_network_details, try_catch, isChromeAccessible, try_catch, bind, CDP_List,
    get_state, advanced.
  split.
  - intros ->. reflexivity.
  - intros c -> Hget. cbn -[String.append]. rewrite Hget. reflexivity.
Qed.

(** X24.  The protocol calls of a detail report: the response body is always
    asked for; the post data only when the record has none cached and its
    method is POST, PUT or PATCH.  Nothing else changes. *)
Theorem details_fetch_post_data_only_when_needed :
  forall (s : State) (rid : string) (includeHeaders : bool)
         (targets : list Target) (rest : list (option (list Target)))
         (c : CdpClient) (request : NetworkRecord),
    endpoint s = Some targets :: rest ->
    targets <> [] ->
    cdpClient s = Some c ->
    JsMap.get rid (networkRequests s) = Some request ->
    snd (get_network_details env rid includeHeaders s)
    = advanced s 1
        ([CdpList; GetResponseBody (client_id c) rid]
         ++ if negb (Js.truthy_string (postData request))
               && is_state_changing (method request)
            then [GetRequestPostData (client_id c) rid]
            else []).
Proof.
  intros s rid includeHeaders targets rest c request He Hne Hc Hget.
  destruct s as [cp nr cl ep nc tr].
  cbn [cdpClient endpoint networkRequests] in Hc, He, Hget. subst cl ep.
  destruct targets as [| t0 targets]; [congruence|].
  unfold get_network_details, try_catch, isChromeAccessible, try_catch, bind, CDP_List,
    get_state, fetch_responseBody, fetch_postData, try_catch, bind, log, advanced.
  cbn -[formatDetails toISOString_throws Js.truthy_string is_state_changing].
  rewrite Hget.
  destruct (response_body env rid) as [[b e] |];
    cbn -[formatDetails toISOString_throws Js.truthy_string is_state_changing];
    destruct (Js.truthy_string (postData request));
    cbn -[formatDetails toISOString_throws is_state_changing];
    destruct (is_state_changing (method request));
    cbn -[formatDetails toISOString_throws];
    try destruct (request_post_data env rid) as [pd |];
    cbn -[formatDetails toISOString_throws];
    destruct (toISOString_throws (timestamp request));
    cbn; rewrite <- ?app_assoc; reflexivity.
Qed.

(** X25.  A timestamp outside the range of [Date] fails the report, after the
    fetches have been made. *)
Theorem details_fail_on_invalid_time :
  forall (s : State) (rid : string) (includeHeaders : bool)
         (targets : list Target) (rest : list (option (list Target)))
         (c : CdpClient) (request : NetworkRecord),
    endpoint s = Some targets :: rest ->
    targets <> [] ->
    cdpClient s = Some c ->
    JsMap.get rid (networkRequests s) = Some request ->
    toISOString_throws (timestamp request) = true ->
    fst (get_network_details env rid includeHeaders s)
    = Return (Text "Error getting network details: Invalid time value").
Proof.
  intros s rid includeHeaders targets rest c request He Hne Hc Hget Hts.
  destruct s as [cp nr cl ep nc tr].
  cbn [cdpClient endpoint networkRequests] in Hc, He, Hget. subst cl ep.
  destruct targets as [| t0 targets]; [congruence|].
  unfold get_network_details, try_catch, isChromeAccessible, try_catch, bind, CDP_List,
    get_state, fetch_responseBody, fetch_postData, try_catch, bind, log.
  cbn -[formatDetails toISOString_throws Js.truthy_string is_state_changing].
  rewrite Hget.
  destruct (response_body env rid) as [[b e] |];
    cbn -[formatDetails toISOString_throws Js.truthy_string is_state_changing];
    destruct (Js.truthy_string (postData request));
    cbn -[formatDetails toISOString_throws is_state_changing];
    destruct (is_state_changing (method request));
    cbn -[formatDetails toISOString_throws];
    try destruct (request_post_data env rid) as [pd |];
    cbn -[formatDetails toISOString_throws];
    rewrite Hts; reflexivity.
Qed.

(** X14.  A record without url among the records to list fails the whole query:
    the handler answers with the text of the [TypeError]. *)
Theorem query_fails_on_record_without_url :
  forall (s : State) (c : CdpClient) (urlFilter m : option string)
         (statusCode : option Z) (limit : Q)
         (targets : list Target) (rest : list (option (list Target)))
         (result : list NetworkRecord) (req : NetworkRecord),
    endpoint s = Some targets :: rest ->
    targets <> [] ->
    cdpClient s = Some c ->
    query RegExp_i (networkRequests s) urlFilter m statusCode limit = Some result ->
    In req result ->
    url req = None ->
    fst (query_network_traffic env RegExp_i urlFilter m statusCode limit s)
    = Return (Text "Error querying network traffic: Cannot read properties of undefined (reading 'replace')").
Proof.
  intros s c urlFilter m statusCode limit targets rest result req He Hne Hc Hq Hin Hurl.
  assert (Hthrows : formatMarkdown_throws result = true).
  { apply formatMarkdown_throws_iff. eauto. }
  destruct s as [cp nr cl ep nc tr].
  cbn [cdpClient endpoint networkRequests] in Hc, He, Hq. subst cl ep.
  destruct targets as [| t0 targets]; [congruence|].
  unfold query_network_traffic, try_catch, isChromeAccessible, try_catch, bind, CDP_List,
    query_connect, bind, get_state.
  cbn -[query formatMarkdown_throws String.append].
  rewrite Hq, Hthrows. reflexivity.
Qed.

End DetailsProperties.

Lemma details_need_client_and_record_witness :
  get_network_details sample_env "nope" false details_session
  = (Return (Text ("Error: No request found with ID: " ++ "nope")),
     advanced details_session 1 [CdpList]).
Proof.
  apply (proj2 (details_need_client_and_record sample_env details_session "nope" false
                  [page_target] [] eq_refl ltac:(discriminate))
               open_client eq_refl eq_refl).
Defined.

Lemma details_fetch_post_data_only_when_needed_witness :
  trace (snd (get_network_details sample_env "r1" false stale_session))
  = [CdpList; GetResponseBody 0 "r1"].
Proof.
  rewrite (details_fetch_post_data_only_when_needed sample_env stale_session "r1" false
             [worker_target; page_target] [Some [worker_target; page_target]]
             stale_client (request_record "r1" sample_get 1)).
  - reflexivity.
  - reflexivity.
  - discriminate.
  - reflexivity.
  - reflexivity.
Defined.

Lemma details_fail_on_invalid_time_witness :
  fst (get_network_details sample_env "r9" false
         (mkState None
            (requestWillBeSent "r9" sample_get (inject_Z 9000000000000000) JsMap.empty)
            (Some open_client) [Some [page_target]] 1 []))
  = Return (Text "Error getting network details: Invalid time value").
Proof.
  apply (details_fail_on_invalid_time sample_env _ "r9" false [page_target] []
           open_client (request_record "r9" sample_get (inject_Z 9000000000000000))).
  - reflexivity.
  - discriminate.
  - reflexivity.
  - reflexivity.
  - reflexivity.
Defined.

Lemma query_fails_on_record_without_url_witness :
  fst (query_network_traffic sample_env RegExp.make_i None None None 50
         (mkState None (responseReceived "r2" (sample_response 404) 5 JsMap.empty)
            (Some open_client) [Some [page_target]] 1 []))
  = Return (Text "Error querying network traffic: Cannot read properties of undefined (reading 'replace')").
Proof.
  apply (query_fails_on_record_without_url sample_env RegExp.make_i _ open_client
           None None None 50 [page_target] []
           [spread_response empty_object "r2" (sample_response 404) 5]
           (spread_response empty_object "r2" (sample_response 404) 5)).
  - reflexivity.
  - discriminate.
  - reflexivity.
  - reflexivity.
  - left. reflexivity.
  - reflexivity.
Defined.

(** ** Further properties of the page load *)

(** X26.  The record set of a page load is what the two handlers build from the
    network events delivered since it started, in their order; interval
    ticks, and the wait having resolved, make no difference to it. *)
Theorem page_load_records_are_the_events_seen :
  forall (cbs : list Callback) (start : Z),
    pageLoadRequests (run_callbacks cbs (page_load_start start))
    = ingest (events_of cbs) JsMap.empty.
Proof.
  intros cbs start.
  assert (H : forall st, pageLoadRequests (run_callbacks cbs st)
                         = ingest (events_of cbs) (pageLoadRequests st)).
  { induction cbs as [| cb cbs IH]; intros st; [reflexivity|].
    change (run_callbacks (cb :: cbs) st) with (run_callbacks cbs (run_callback st cb)).
    rewrite IH. destruct cb as [now e | now]; simpl; [reflexivity|].
    destruct (settled st); [reflexivity|].
    destruct (now - lastNetworkActivity st >=? 1000); reflexivity. }
  apply H.
Qed.

(** ** Properties of the summary of [open-url] *)

Lemma ends_with_app (x y : string) : ends_with (x ++ y) y = true.
Proof.
  induction x as [| c x IH]; simpl.
  - destruct y; simpl; [reflexivity|]. now rewrite Ascii.eqb_refl, String.eqb_refl.
  - rewrite IH. apply orb_true_r.
Qed.

Lemma toUpperCase_app (a b : string) :
  toUpperCase (a ++ b) = toUpperCase a ++ toUpperCase b.
Proof. induction a as [| c a IH]; simpl; [reflexivity | now rewrite IH]. Qed.

Lemma same_ignoring_case_upper (a b : string) :
  same_ignoring_case a b -> toUpperCase a = toUpperCase b.
Proof.
  revert b. induction a as [| x a IH]; intros [| y b]; simpl; try tauto.
  intros [Hc Hs]. now rewrite Hc, (IH b Hs).
Qed.

(** X27.  A request for an image or a font is never listed among the API requests,
    however the extension of its url is spelt, nor is one whose url ends in
    [.css] or [.js], nor one whose url does not parse or is missing. *)
Theorem static_assets_are_not_api_requests :
  forall (hostname : string -> option string) (targetDomain : string)
         (req : NetworkRecord) (stem ext spelt : string),
    (url req = Some (stem ++ "." ++ spelt) ->
     In ext static_extensions ->
     same_ignoring_case ext spelt ->
     is_api_request hostname targetDomain req = false)
    /\ (url req = Some (stem ++ ".css") \/ url req = Some (stem ++ ".js") ->
        is_api_request hostname targetDomain req = false)
    /\ (hostname (Js.template (url req)) = None \/ url req = None ->
        is_api_request hostname targetDomain req = false).
Proof.
  intros hostname targetDomain req stem ext spelt. split; [|split].
  - intros Hurl Hext Hsame. unfold is_api_request. rewrite Hurl.
    destruct (hostname _); [|reflexivity].
    assert (Hstatic : has_static_extension (stem ++ "." ++ spelt) = true).
    { unfold has_static_extension. apply existsb_exists. exists ext. split; [exact Hext|].
      rewrite toUpperCase_app.
      replace (toUpperCase ("." ++ spelt)) with (toUpperCase ("." ++ ext)).
      - apply ends_with_app.
      - simpl. f_equal. now apply same_ignoring_case_upper. }
    unfold isApiRequest. rewrite Hstatic. simpl. now rewrite !andb_false_r.
  - intros [Hurl | Hurl]; unfold is_api_request; rewrite Hurl;
      (destruct (hostname _); [|reflexivity]);
      unfold isApiRequest; rewrite ends_with_app; simpl; now rewrite !andb_false_r.
  - intros [Hhost | Hurl]; unfold is_api_request.
    + destruct (url req) as [u |]; [|reflexivity]. simpl in Hhost. now rewrite Hhost.
    + now rewrite Hurl.
Qed.

Lemma static_assets_are_not_api_requests_witness :
  is_api_request sample_hostname "a"
    (request_record "r1" (mkRequest ("http://a/fonts/Inter" ++ "." ++ "WOFF2") "GET" [] None) 1)
  = false.
Proof.
  apply (proj1 (static_assets_are_not_api_requests sample_hostname "a"
                  (request_record "r1"
                     (mkRequest ("http://a/fonts/Inter" ++ "." ++ "WOFF2") "GET" [] None) 1)
                  "http://a/fonts/Inter" "woff2" "WOFF2")).
  - reflexivity.
  - simpl. tauto.
  - simpl. tauto.
Defined.

Example open_url_summary_sample :
  open_url_summary sample_hostname "http://a/index.html"
    (ingest [ RequestWillBeSent "r1" (mkRequest "http://a/index.html" "GET" [] None) 1;
              ResponseReceived "r1"
                (mkResponsePayload "http://a/index.html" 200 "OK" [] "text/html") 2;
              RequestWillBeSent "r2" (mkRequest "http://a/api/items" "POST" [] None) 3;
              RequestWillBeSent "r3" (mkRequest "http://cdn.b/app.js" "GET" [] None) 4;
              RequestWillBeSent "r4" (mkRequest "http://a/logo.PNG" "GET" [] None) 5;
              ResponseReceived "r5" (sample_response 204) 6 ] JsMap.empty)
  = Some ("Successfully loaded page: http://a/index.html" ++ nl ++ nl
          ++ "Network Traffic Summary:" ++ nl
          ++ "- Total network requests: 5" ++ nl ++ nl
          ++ "API Requests (same domain):" ++ nl
          ++ "  POST pending http://a/api/items [r2]" ++ nl ++ nl
          ++ "Page loaded and network traffic settled after 1 second of inactivity.").
Proof. reflexivity. Qed.

(** ** Instances of the earlier lemmas *)

Lemma waitForChromeAccessible_bounded_witness :
  exists (b : bool) (calls : list Effect),
    waitForChromeAccessible 10 500 (mkState None JsMap.empty None [None; Some [page_target]] 0 [])
    = (Return b,
       advanced (mkState None JsMap.empty None [None; Some [page_target]] 0 [])
                (listings calls) calls)
    /\ (listings calls <= 10)%nat
    /\ slept calls <= Z.of_nat 10 * 500.
Proof.
  apply (waitForChromeAccessible_bounded 500 10); lia.
Defined.


Lemma open_url_replaces_stale_client_always_witness :
  cdpClient (snd (open_url_navigate sample_env "http://a/" stale_session))
  = Some (mkClient 1 (webSocketDebuggerUrl page_target) (Some 1)).
Proof.
  rewrite (open_url_replaces_stale_client_always sample_env stale_session stale_client
             "http://a/" [worker_target; page_target] [worker_target; page_target]
             page_target []).
  - reflexivity.
  - intros e _. reflexivity.
  - reflexivity.
  - reflexivity.
  - reflexivity.
  - discriminate.
  - reflexivity.
Defined.
